(** * Agente_NTs: the collector of technical notes and its PDF rule extractor

    A shallow embedding of the package [agente_nts]: [utils.py]
    ([clean_space], [normalize_href], [is_probably_pdf_bytes]),
    [parse_pdf.py] (header detection, the table and the text rule parsers,
    the version and schedule scan, the orchestration), [fetch_nts.py] (the
    publication date, the links of the list page, the download), [excel.py]
    and [main.py] (the sheet of a run), with the properties of the
    specification stated and settled on it, and further properties of the
    code.

    Python strings are sequences of Unicode code points; they are modelled as
    lists of [N].  The regular expressions of the source are written in a
    small abstract syntax and run by a backtracking matcher that follows the
    order of Python's [re] module (leftmost match, greedy repetition, first
    alternative first).

    Character tables.  [isspace] is Python's table in full.  The case
    mapping ([lower_char], [upper_char]), the word characters of [\b] and the
    digits of [\d] are Python's tables on U+0000..U+00FF; above U+00FF a
    code point is taken as caseless, not a word character and not a digit. *)

From Stdlib Require Import String Ascii NArith ZArith List Bool Arith Lia.
Import ListNotations.

Open Scope N_scope.
Open Scope list_scope.

(** ** Characters and strings *)

Definition char := N.
Definition str := list char.

Definition ch_tab : char := 9.
Definition ch_nl : char := 10.
Definition ch_cr : char := 13.
Definition ch_space : char := 32.
Definition ch_nbsp : char := 160.

(** [str.isspace] on one character, which is also [\s] of a [str] pattern. *)
Definition isspace (c : char) : bool :=
  ((9 <=? c) && (c <=? 13)) || ((28 <=? c) && (c <=? 32))
  || (c =? 133) || (c =? 160) || (c =? 5760)
  || ((8192 <=? c) && (c <=? 8202))
  || (c =? 8232) || (c =? 8233) || (c =? 8239) || (c =? 8287) || (c =? 12288).

(** The line boundaries of [str.splitlines]. *)
Definition is_line_boundary (c : char) : bool :=
  ((10 <=? c) && (c <=? 13)) || ((28 <=? c) && (c <=? 30))
  || (c =? 133) || (c =? 8232) || (c =? 8233).

Definition is_upper (c : char) : bool :=
  ((65 <=? c) && (c <=? 90))
  || ((192 <=? c) && (c <=? 222) && negb (c =? 215)).

Definition is_lower_cased (c : char) : bool :=
  ((97 <=? c) && (c <=? 122))
  || ((224 <=? c) && (c <=? 254) && negb (c =? 247)).

Definition lower_char (c : char) : char := if is_upper c then c + 32 else c.
Definition upper_char (c : char) : char := if is_lower_cased c then c - 32 else c.

Definition isdigit (c : char) : bool := (48 <=? c) && (c <=? 57).

(** [\w]: the characters for which [str.isalnum] holds, and the underscore. *)
Definition is_word (c : char) : bool :=
  isdigit c || ((65 <=? c) && (c <=? 90)) || (c =? 95)
  || ((97 <=? c) && (c <=? 122))
  || (c =? 170) || (c =? 178) || (c =? 179) || (c =? 181)
  || (c =? 185) || (c =? 186) || ((188 <=? c) && (c <=? 190))
  || ((192 <=? c) && (c <=? 255) && negb (c =? 215) && negb (c =? 247)).

(** *** String literals

    [py "..."] reads a literal the way Python reads it: the bytes are UTF-8,
    and the escapes [\n], [\t], [\r], [\\] and [\xHH] stand for one
    character. *)

Definition hex_val (b : N) : N :=
  if (48 <=? b) && (b <=? 57) then b - 48
  else if (97 <=? b) && (b <=? 102) then b - 87
  else if (65 <=? b) && (b <=? 70) then b - 55
  else 0.

Fixpoint decode (bs : list N) : str :=
  match bs with
  | [] => []
  | b :: t =>
    if b =? 92 then
      match t with
      | e :: t' =>
        if e =? 110 then ch_nl :: decode t'
        else if e =? 116 then ch_tab :: decode t'
        else if e =? 114 then ch_cr :: decode t'
        else if e =? 120 then
          match t' with
          | h1 :: h2 :: t'' => (16 * hex_val h1 + hex_val h2) :: decode t''
          | _ => []
          end
        else e :: decode t'
      | [] => [b]
      end
    else if b <? 128 then b :: decode t
    else if b <? 224 then
      match t with
      | c1 :: t' => ((b - 192) * 64 + (c1 - 128)) :: decode t'
      | _ => []
      end
    else if b <? 240 then
      match t with
      | c1 :: c2 :: t' =>
        ((b - 224) * 4096 + (c1 - 128) * 64 + (c2 - 128)) :: decode t'
      | _ => []
      end
    else
      match t with
      | c1 :: c2 :: c3 :: t' =>
        ((b - 240) * 262144 + (c1 - 128) * 4096 + (c2 - 128) * 64 + (c3 - 128))
          :: decode t'
      | _ => []
      end
  end.

Definition py (s : string) : str :=
  decode (map N_of_ascii (list_ascii_of_string s)).

(** *** The string methods the program uses *)

(** Truth value of a string: [bool(s)]. *)
Definition truthy (s : str) : bool :=
  match s with [] => false | _ :: _ => true end.

Definition truthy_list {A : Type} (l : list A) : bool :=
  match l with [] => false | _ :: _ => true end.

(** [x or ""] on an optional string. *)
Definition or_empty (o : option str) : str :=
  match o with Some s => s | None => [] end.

Fixpoint starts_with (p s : str) : bool :=
  match p, s with
  | [], _ => true
  | a :: p', b :: s' => (a =? b) && starts_with p' s'
  | _ :: _, [] => false
  end.

(** [needle in hay]. *)
Fixpoint contains (needle hay : str) : bool :=
  starts_with needle hay ||
  match hay with
  | [] => false
  | _ :: hay' => contains needle hay'
  end.

(** [s.lower()]. *)
Definition lower (s : str) : str := map lower_char s.

(** [sep.join(parts)]. *)
Fixpoint join (sep : str) (parts : list str) : str :=
  match parts with
  | [] => []
  | [p] => p
  | p :: rest => p ++ sep ++ join sep rest
  end.

(** [s.replace(old, new)] for a non-empty [old]: [skip] counts the
    characters of the occurrence being replaced that are still to be
    dropped. *)
Fixpoint replace_loop (old new : str) (skip : nat) (s : str) : str :=
  match s with
  | [] => []
  | c :: s' =>
    match skip with
    | S n => replace_loop old new n s'
    | O =>
      if starts_with old s
      then new ++ replace_loop old new (pred (length old)) s'
      else c :: replace_loop old new 0 s'
    end
  end.

Definition replace (old new s : str) : str := replace_loop old new 0 s.

Fixpoint lstrip (s : str) : str :=
  match s with
  | c :: s' => if isspace c then lstrip s' else s
  | [] => []
  end.

Definition rstrip (s : str) : str := rev (lstrip (rev s)).

(** [s.strip()]. *)
Definition strip (s : str) : str := lstrip (rstrip s).

(** [s.splitlines()]: a line ends at a line boundary, [\r\n] counts as
    one, and a final line break opens no further line. *)
Fixpoint splitlines_from (after_cr : bool) (line_rev : str) (s : str)
  : list str :=
  match s with
  | [] => match line_rev with [] => [] | _ :: _ => [rev line_rev] end
  | c :: s' =>
    if after_cr && (c =? ch_nl) then splitlines_from false [] s'
    else if is_line_boundary c
         then rev line_rev :: splitlines_from (c =? ch_cr) [] s'
         else splitlines_from false (c :: line_rev) s'
  end.

Definition splitlines (s : str) : list str := splitlines_from false [] s.

(** ** Regular expressions

    The patterns of the program repeat only single characters and classes,
    so repetition is over an [atom].  Groups carry the number Python gives
    them (the order of their opening parentheses). *)

Inductive atom : Type :=
| Chr (c : char)
| Cls (p : char -> bool).

Inductive regex : Type :=
| Eps
| One (a : atom)
| Cat (r1 r2 : regex)
| Alt (r1 r2 : regex)
| Rep (a : atom) (lo : nat) (hi : option nat)
| Grp (n : nat) (r : regex)
| Bos
| Eos
| Wordb.

Declare Scope regex_scope.
Delimit Scope regex_scope with re.
Bind Scope regex_scope with regex.
Infix "+>" := Cat (at level 61, right associativity) : regex_scope.
Infix "<|>" := Alt (at level 62, right associativity) : regex_scope.

(** A literal run of characters. *)
Fixpoint lits (s : str) : regex :=
  match s with
  | [] => Eps
  | [c] => One (Chr c)
  | c :: s' => Cat (One (Chr c)) (lits s')
  end.

Definition lit (s : string) : regex := lits (py s).

Definition any_of (s : string) : char -> bool :=
  fun c => existsb (N.eqb c) (py s).
Definition in_range (a b : string) : char -> bool :=
  fun c => match py a, py b with
           | [x], [y] => (x <=? c) && (c <=? y)
           | _, _ => false
           end.
Definition dot : char -> bool := fun c => negb (c =? ch_nl).

(** [a*], [a+] and [a{lo,hi}]. *)
Definition many (a : atom) : regex := Rep a 0 None.
Definition many1 (a : atom) : regex := Rep a 1 None.
Definition times (a : atom) (lo hi : nat) : regex := Rep a lo (Some hi).

(** The matcher walks a cursor through the text: [before] holds what is
    left of the cursor, latest character first, [after] what is right of it,
    [caps] the text of the groups closed so far. *)
Record cursor : Type := Cursor {
  before : str;
  after : str;
  caps : list (nat * str)
}.

Definition at_start (s : str) : cursor := Cursor [] s [].

(** [ic] is the flag [re.I]. *)
Definition atom_ok (ic : bool) (a : atom) (c : char) : bool :=
  match a with
  | Chr x => if ic then lower_char c =? lower_char x else c =? x
  | Cls p => p c || (ic && (p (lower_char c) || p (upper_char c)))
  end.

Definition word_at (s : str) : bool :=
  match s with c :: _ => is_word c | [] => false end.

(** The text the cursor moved over from [c0] to [c1]. *)
Definition span (c0 c1 : cursor) : str :=
  rev (firstn (List.length (before c1) - List.length (before c0)) (before c1)).

Fixpoint set_cap (n : nat) (v : str) (l : list (nat * str)) : list (nat * str) :=
  match l with
  | [] => [(n, v)]
  | (m, w) :: l' => if Nat.eqb m n then (n, v) :: l' else (m, w) :: set_cap n v l'
  end.

Fixpoint get_cap (n : nat) (l : list (nat * str)) : option str :=
  match l with
  | [] => None
  | (m, w) :: l' => if Nat.eqb m n then Some w else get_cap n l'
  end.

Definition hi_open (hi : option nat) : bool :=
  match hi with Some O => false | _ => true end.

(** Greedy repetition of one atom: take as many characters as allowed, then
    give them back one at a time until the rest of the pattern matches. *)
Fixpoint greedy {R : Type} (ok : char -> bool) (k : str -> str -> option R)
  (lo : nat) (hi : option nat) (bef aft : str) {struct aft} : option R :=
  let stop := match lo with O => k bef aft | S _ => None end in
  match aft with
  | c :: aft' =>
    if hi_open hi && ok c then
      match greedy ok k (pred lo) (option_map pred hi) (c :: bef) aft' with
      | Some r => Some r
      | None => stop
      end
    else stop
  | [] => stop
  end.

(** [exec ic r k cur]: match [r] at [cur], then the rest of the pattern
    [k]; the first success in Python's backtracking order. *)
Fixpoint exec {R : Type} (ic : bool) (r : regex) (k : cursor -> option R)
  (cur : cursor) : option R :=
  match r with
  | Eps => k cur
  | One a =>
    match after cur with
    | c :: aft =>
      if atom_ok ic a c then k (Cursor (c :: before cur) aft (caps cur)) else None
    | [] => None
    end
  | Cat r1 r2 => exec ic r1 (exec ic r2 k) cur
  | Alt r1 r2 =>
    match exec ic r1 k cur with
    | Some m => Some m
    | None => exec ic r2 k cur
    end
  | Rep a lo hi =>
    greedy (atom_ok ic a) (fun b a' => k (Cursor b a' (caps cur)))
           lo hi (before cur) (after cur)
  | Grp n r1 =>
    exec ic r1
         (fun c1 => k (Cursor (before c1) (after c1)
                              (set_cap n (span cur c1) (caps c1))))
         cur
  | Bos => match before cur with [] => k cur | _ :: _ => None end
  | Eos =>
    match after cur with
    | [] => k cur
    | [c] => if c =? ch_nl then k cur else None
    | _ => None
    end
  | Wordb =>
    if xorb (word_at (before cur)) (word_at (after cur)) then k cur else None
  end.

(** A match object: where the match starts and where it ends. *)
Record rmatch : Type := RMatch { m_start : cursor; m_end : cursor }.

(** [m.group(0)], [m.group(n)] and [text[m.end():]]. *)
Definition matched (m : rmatch) : str := span (m_start m) (m_end m).
Definition group (n : nat) (m : rmatch) : option str := get_cap n (caps (m_end m)).
Definition rest_after (m : rmatch) : str := after (m_end m).
Definition match_len (m : rmatch) : nat := List.length (matched m).

(** [m.group(n)] as a text.  Every group the program reads lies on every
    path through its pattern, so a match always gives it a text and
    [m.group(n)] is never [None] (lemmas [match_sets_group] and
    [groups_read_are_set] below); [group_text] is that text. *)
Definition group_text (n : nat) (m : rmatch) : str := or_empty (group n m).

(** [pattern.match(s)], at a cursor. *)
Definition match_at (ic : bool) (r : regex) (c0 : cursor) : option rmatch :=
  exec ic r (fun c1 => Some (RMatch c0 c1)) c0.

Definition re_match (ic : bool) (r : regex) (s : str) : option rmatch :=
  match_at ic r (at_start s).

(** [pattern.search(s)]: the leftmost position where the pattern matches. *)
Fixpoint search_from (ic : bool) (r : regex) (bef aft : str) : option rmatch :=
  match match_at ic r (Cursor bef aft []) with
  | Some m => Some m
  | None =>
    match aft with
    | [] => None
    | c :: aft' => search_from ic r (c :: bef) aft'
    end
  end.

Definition re_search (ic : bool) (r : regex) (s : str) : option rmatch :=
  search_from ic r [] s.

(** The loops of [sub], [split] and [findall] go through the text once;
    [skip] counts the characters of the current match still to be passed.  A
    match of the empty string is passed over: no pattern of the program
    matches the empty string. *)
Definition nonempty_match (ic : bool) (r : regex) (bef aft : str)
  : option (rmatch * nat) :=
  match match_at ic r (Cursor bef aft []) with
  | Some m => match match_len m with
              | O => None
              | S n => Some (m, n)
              end
  | None => None
  end.

(** [pattern.sub(repl, s)] with a replacement text without group
    references. *)
Fixpoint sub_loop (ic : bool) (r : regex) (repl : str) (skip : nat)
  (bef aft : str) : str :=
  match aft with
  | [] => []
  | c :: aft' =>
    match skip with
    | S n => sub_loop ic r repl n (c :: bef) aft'
    | O =>
      match nonempty_match ic r bef aft with
      | Some (_, n) => repl ++ sub_loop ic r repl n (c :: bef) aft'
      | None => c :: sub_loop ic r repl 0 (c :: bef) aft'
      end
    end
  end.

Definition re_sub (ic : bool) (r : regex) (repl s : str) : str :=
  sub_loop ic r repl 0 [] s.

Fixpoint ngroups (r : regex) : nat :=
  match r with
  | Cat r1 r2 | Alt r1 r2 => ngroups r1 + ngroups r2
  | Grp _ r1 => S (ngroups r1)
  | _ => O
  end.

Definition groups_of (r : regex) (m : rmatch) : list str :=
  map (fun n => group_text n m) (seq 1 (ngroups r)).

(** [pattern.split(s, maxsplit)]: the pieces between the matches and, after
    each piece but the last, the groups of the match that ends it.  [left]
    is the number of splits still allowed, [None] when there is no limit. *)
Fixpoint split_loop (ic : bool) (r : regex) (left : option nat) (skip : nat)
  (piece_rev bef aft : str) : list str :=
  match aft with
  | [] => [rev piece_rev]
  | c :: aft' =>
    match skip with
    | S n => split_loop ic r left n piece_rev (c :: bef) aft'
    | O =>
      match left with
      | Some O => [rev piece_rev ++ aft]
      | _ =>
        match nonempty_match ic r bef aft with
        | Some (m, n) =>
          rev piece_rev :: groups_of r m
            ++ split_loop ic r (option_map pred left) n [] (c :: bef) aft'
        | None => split_loop ic r left 0 (c :: piece_rev) (c :: bef) aft'
        end
      end
    end
  end.

Definition re_split (ic : bool) (r : regex) (s : str) (maxsplit : nat)
  : list str :=
  split_loop ic r (match maxsplit with O => None | _ => Some maxsplit end)
             0 [] [] s.

(** [pattern.findall(s)] for a pattern with exactly one group: the text of
    that group for every match. *)
Fixpoint findall_loop (ic : bool) (r : regex) (skip : nat) (bef aft : str)
  : list str :=
  match aft with
  | [] => []
  | c :: aft' =>
    match skip with
    | S n => findall_loop ic r n (c :: bef) aft'
    | O =>
      match nonempty_match ic r bef aft with
      | Some (m, n) => group_text 1 m :: findall_loop ic r n (c :: bef) aft'
      | None => findall_loop ic r 0 (c :: bef) aft'
      end
    end
  end.

Definition re_findall (ic : bool) (r : regex) (s : str) : list str :=
  findall_loop ic r 0 [] s.

(** The flag [re.I], and no flag. *)
Definition re_I : bool := true.
Definition no_flag : bool := false.

(** The classes [\s], [\d] and the literal classes of the patterns. *)
Definition ws : atom := Cls isspace.
Definition digit : atom := Cls isdigit.

(** ** agente_nts/utils.py *)

(** [[ \t]+] *)
Definition BLANKS_RE : regex := many1 (Cls (any_of " \t")).
(** [\s*\n\s*] *)
Definition NEWLINE_RE : regex := (many ws +> One (Chr ch_nl) +> many ws)%re.
(** [\n{3,}] *)
Definition NEWLINES3_RE : regex := Rep (Chr ch_nl) 3 None.

(** [clean_space(s)].  The parameter is annotated [str] and every caller
    passes a string. *)
Definition clean_space (s : str) : str :=
  if negb (truthy s) then []
  else
    let s := replace (py "\xa0") (py " ") s in
    let s := re_sub no_flag BLANKS_RE (py " ") s in
    let s := re_sub no_flag NEWLINE_RE (py "\n") s in
    let s := re_sub no_flag NEWLINES3_RE (py "\n\n") s in
    strip s.

(** ** agente_nts/parse_pdf.py *)

(** *** Data *)

(** The dataclass [NTRow]. *)
Record NTRow : Type := mkNTRow {
  nt_titulo : str;
  nt_versao : option str;
  publicada_em : option str;
  implantacao_homolog : option str;
  implantacao_producao : option str;
  grupo : option str;
  campo : option str;
  regra : option str;
  aplic : option str;
  msg : option str;
  descricao : option str
}.

(** The dictionary of one rule: the parsers build it with exactly the keys
    [campo], [regra], [aplic], [msg], [descricao]. *)
Record RV : Type := mkRV {
  rv_campo : str;
  rv_regra : str;
  rv_aplic : str;
  rv_msg : str;
  rv_descricao : str
}.

(** [row.values()] *)
Definition rv_values (r : RV) : list str :=
  [rv_campo r; rv_regra r; rv_aplic r; rv_msg r; rv_descricao r].

(** A table of pdfplumber: rows of cells, a cell is a text or [None]. *)
Definition row := list (option str).
Definition table := list row.

(** What the PDF libraries give for one file.  [extract_tables] of a page
    is called with three settings, each call may raise ([None]);
    [pdfplumber.open] may raise; [PdfReader] and [extract_text] may raise,
    and [extract_text] may return [None]. *)
Inductive strategy : Type := Lines | TextFlow | LinesStrict.

Record page : Type := mkPage { extract_tables : strategy -> option (list table) }.

Record pdf_file : Type := mkPdf {
  pypdf_pages : option (list (option str));
  plumber_pages : option (list page)
}.

(** Exceptions, and results that may raise. *)
Inductive exn : Type := IndexError | PdfError.

Inductive result (A : Type) : Type :=
| Ok (a : A)
| Raise (e : exn).
Arguments Ok {A} a.
Arguments Raise {A} e.

Definition bind {A B : Type} (x : result A) (f : A -> result B) : result B :=
  match x with Ok a => f a | Raise e => Raise e end.

Notation "x <- e1 ;; e2" := (bind e1 (fun x => e2))
  (at level 100, e1 at next level, right associativity).

(** *** Patterns *)

(** [Controle\s+de\s+Vers(ões|oes)], [re.I] *)
Definition CONTROL_VER_RE : regex :=
  (lit "Controle" +> many1 ws +> lit "de" +> many1 ws +> lit "Vers"
   +> Grp 1 (lit "ões" <|> lit "oes"))%re.

(** [Hist(ó|o)rico\s+de\s+Altera(ç|c)(ões|oes)\s*/\s*Cronograma], [re.I] *)
Definition HIST_CRONO_RE : regex :=
  (lit "Hist" +> Grp 1 (lit "ó" <|> lit "o") +> lit "rico" +> many1 ws
   +> lit "de" +> many1 ws +> lit "Altera" +> Grp 2 (lit "ç" <|> lit "c")
   +> Grp 3 (lit "ões" <|> lit "oes") +> many ws +> lit "/" +> many ws
   +> lit "Cronograma")%re.

Definition letter : atom :=
  Cls (fun c => in_range "A" "Z" c || in_range "a" "z" c).
Definition upper_letter : atom := Cls (in_range "A" "Z").

(** [^\s*(\d+\.\d+)\s+(\d{2}/\d{4}|[A-Za-z]+/\d{4}|Março/\d{4}|Junho/\d{4}|Julho/\d{4})\s+.*],
    [re.I] *)
Definition VERSAO_LINHA_RE : regex :=
  (Bos +> many ws +> Grp 1 (many1 digit +> lit "." +> many1 digit)
   +> many1 ws
   +> Grp 2 ((times digit 2 2 +> lit "/" +> times digit 4 4)
             <|> (many1 letter +> lit "/" +> times digit 4 4)
             <|> (lit "Março/" +> times digit 4 4)
             <|> (lit "Junho/" +> times digit 4 4)
             <|> (lit "Julho/" +> times digit 4 4))
   +> many1 ws +> many (Cls dot))%re.

(** [^\s*7\.\s*Regras\s+de\s+Valida(ç|c)(ão|ao)\s*], [re.I] *)
Definition RV_SECTION_RE : regex :=
  (Bos +> many ws +> lit "7." +> many ws +> lit "Regras" +> many1 ws
   +> lit "de" +> many1 ws +> lit "Valida" +> Grp 1 (lit "ç" <|> lit "c")
   +> Grp 2 (lit "ão" <|> lit "ao") +> many ws)%re.

(** [\b(\d{2}/\d{2}/\d{4})\b] *)
Definition DATE_DDMMYYYY : regex :=
  (Wordb +> Grp 1 (times digit 2 2 +> lit "/" +> times digit 2 2 +> lit "/"
                   +> times digit 4 4) +> Wordb)%re.

(** *** [_pdf_text] and [_iter_tables] *)

Definition _pdf_text (f : pdf_file) : str :=
  match pypdf_pages f with
  | Some pages => join (py "\n") (map or_empty pages)
  | None => []
  end.

Definition _iter_tables (pl_page : page) : list table :=
  flat_map (fun ts => match extract_tables pl_page ts with
                      | Some t => t
                      | None => []
                      end)
           [Lines; TextFlow; LinesStrict].

(** *** [_guess_has_rv_header] *)

Definition _guess_has_rv_header (r : row) : bool :=
  let head := join (py " | ") (map (fun c => lower (or_empty c)) r) in
  (contains (py "aplic") head && contains (py "msg") head)
  || (contains (py "descri") head && contains (py "regra") head).

(** *** [_parse_rv_tables] *)

(** The header of a table: the [for]/[break] loop over [tbl[:3]]. *)
Definition find_header (tbl : table) : option (list str) :=
  match find (fun r => _guess_has_rv_header (map (fun cell => Some (or_empty cell)) r))
             (firstn 3 tbl) with
  | Some r => Some (map (fun cell => clean_space (or_empty cell)) r)
  | None => None
  end.

Fixpoint index_where {A : Type} (f : A -> bool) (l : list A) : option nat :=
  match l with
  | [] => None
  | x :: l' => if f x then Some O else option_map S (index_where f l')
  end.

(** The closure [find_idx] of [_parse_rv_tables], with the header it
    reads as an argument. *)
Definition find_idx (header : list str) (names : list str) : option nat :=
  let names := map lower names in
  index_where (fun h => let h2 := lower h in
                        existsb (fun n => contains n h2) names)
              header.

(** [cells[idx] if idx is not None else ""] *)
Definition cell_at (cells : list str) (idx : option nat) : result str :=
  match idx with
  | None => Ok []
  | Some i => match nth_error cells i with
              | Some v => Ok v
              | None => Raise IndexError
              end
  end.

(** The column indices of one table. *)
Record columns : Type := mkColumns {
  idx_regra : option nat;
  idx_campo : option nat;
  idx_aplic : option nat;
  idx_msg : option nat;
  idx_desc : option nat
}.

Definition header_columns (header : list str) : columns :=
  {| idx_regra := find_idx header [py "regra"; py "rv"; py "id"];
     idx_campo := find_idx header [py "campo"; py "id"];
     idx_aplic := find_idx header [py "aplic"];
     idx_msg := find_idx header [py "msg"; py "cstat"];
     idx_desc := find_idx header [py "descr"; py "descrição"; py "descricao";
                                  py "observ"] |}.

(** The dictionary built from one row of the table. *)
Definition row_dict (cols : columns) (r : row) : result RV :=
  let cells := map (fun c => clean_space (or_empty c)) r ++ repeat [] 6 in
  campo <- cell_at cells (idx_campo cols) ;;
  regra <- cell_at cells (idx_regra cols) ;;
  aplic <- cell_at cells (idx_aplic cols) ;;
  msg <- cell_at cells (idx_msg cols) ;;
  descricao <- cell_at cells (idx_desc cols) ;;
  Ok (mkRV campo regra aplic msg descricao).

(** [any(row.values()) and len(clean_space(row["descricao"])) >= 3] *)
Definition keep_row (d : RV) : bool :=
  existsb truthy (rv_values d)
  && (3 <=? List.length (clean_space (rv_descricao d)))%nat.

(** The loop over [tbl[1:]]; [out] is the list the function appends to. *)
Fixpoint rows_loop (cols : columns) (rows : list row) (out : list RV)
  : result (list RV) :=
  match rows with
  | [] => Ok out
  | r :: rows' =>
    d <- row_dict cols r ;;
    rows_loop cols rows' (if keep_row d then out ++ [d] else out)
  end.

(** The body of the loop over the tables of a page. *)
Definition table_step (tbl : table) (out : list RV) : result (list RV) :=
  if (List.length tbl <? 2)%nat then Ok out
  else
    match find_header tbl with
    | None => Ok out
    | Some header =>
      if negb (truthy_list header) then Ok out
      else rows_loop (header_columns header) (skipn 1 tbl) out
    end.

Fixpoint tables_loop (tables : list table) (out : list RV) : result (list RV) :=
  match tables with
  | [] => Ok out
  | tbl :: tables' => out' <- table_step tbl out ;; tables_loop tables' out'
  end.

Fixpoint pages_loop (pages : list page) (out : list RV) : result (list RV) :=
  match pages with
  | [] => Ok out
  | pg :: pages' =>
    out' <- tables_loop (_iter_tables pg) out ;; pages_loop pages' out'
  end.

Definition _parse_rv_tables (f : pdf_file) : result (list RV) :=
  match plumber_pages f with
  | None => Raise PdfError
  | Some pages => pages_loop pages []
  end.

(** *** [_parse_rv_text] *)

(** [\n{2,}] *)
Definition BLANK_LINE_RE : regex := Rep (Chr ch_nl) 2 None.
(** [\bObrig\.\b], [re.I] *)
Definition OBRIG_RE : regex := (Wordb +> lit "Obrig" +> lit "." +> Wordb)%re.
(** [\bFacult\.\b], [re.I] *)
Definition FACULT_RE : regex := (Wordb +> lit "Facult" +> lit "." +> Wordb)%re.
(** [\b(\d{3,4})\b] *)
Definition MSG_RE : regex := (Wordb +> Grp 1 (times digit 3 4) +> Wordb)%re.
(** [\b(G)\b] where the group [G] is [[A-Z]{1,3}\d{1,3}[A-Za-z\-]*\d*] *)
Definition REGRA_RE : regex :=
  (Wordb
   +> Grp 1 (times upper_letter 1 3 +> times digit 1 3
             +> many (Cls (fun c => in_range "A" "Z" c || in_range "a" "z" c
                                    || any_of "-" c))
             +> many digit)
   +> Wordb)%re.
(** [^([A-Z]{1,3}\d{1,3})] *)
Definition CAMPO_RE : regex :=
  (Bos +> Grp 1 (times upper_letter 1 3 +> times digit 1 3))%re.
(** [Rejei(ç|c)ão:\s*(G)$] where the group [G] is [.*]; [re.I] *)
Definition REJEICAO_RE : regex :=
  (lit "Rejei" +> Grp 1 (lit "ç" <|> lit "c") +> lit "ão:" +> many ws
   +> Grp 2 (many (Cls dot)) +> Eos)%re.
(** [^(Obrig\.|Facult\.)\s*], [re.I] *)
Definition PREFIX_RE : regex :=
  (Bos +> Grp 1 (lit "Obrig." <|> lit "Facult.") +> many ws)%re.

Definition is_match (m : option rmatch) : bool :=
  match m with Some _ => true | None => false end.

(** The body of the loop over the paragraphs: the dictionary appended to
    [out], or [None] when the paragraph adds nothing. *)
Definition rv_paragraph (para : str) : option RV :=
  let p := clean_space para in
  if negb (truthy p) then None
  else
    let aplic : option str :=
      if is_match (re_search re_I OBRIG_RE p) then Some (py "Obrig.")
      else if is_match (re_search re_I FACULT_RE p) then Some (py "Facult.")
      else None in
    let mmsg := re_search no_flag MSG_RE p in
    let msg := match mmsg with Some m => group_text 1 m | None => [] end in
    let mrv := re_search no_flag REGRA_RE p in
    let regra := match mrv with Some m => group_text 1 m | None => [] end in
    let mcampo := if truthy regra then re_match no_flag CAMPO_RE regra else None in
    let campo := match mcampo with Some m => group_text 1 m | None => [] end in
    let rej := re_search re_I REJEICAO_RE p in
    let desc := match rej with
                | Some m => group_text 2 m
                | None => re_sub re_I PREFIX_RE [] p
                end in
    if truthy desc && (truthy (or_empty aplic) || truthy msg || truthy regra)
    then Some (mkRV campo regra (or_empty aplic) msg desc)
    else None.

Fixpoint paragraphs_loop (paras : list str) (out : list RV) : list RV :=
  match paras with
  | [] => out
  | para :: paras' =>
    paragraphs_loop paras'
      (match rv_paragraph para with Some d => out ++ [d] | None => out end)
  end.

Definition _parse_rv_text (text : str) : list RV :=
  if negb (truthy text) then []
  else
    let sec := re_split re_I RV_SECTION_RE text 1 in
    if (List.length sec <? 2)%nat then []
    else
      let body := nth 1 sec [] in
      paragraphs_loop (re_split no_flag BLANK_LINE_RE body 0) [].

(** *** [_extract_versions_block] *)

(** The loop over the lines after the header of the version table. *)
Fixpoint candidatas_loop (lines : list str) (candidatas : list str) : list str :=
  match lines with
  | [] => candidatas
  | ln :: lines' =>
    let ln := strip ln in
    candidatas_loop lines'
      (match re_match re_I VERSAO_LINHA_RE ln with
       | Some m => candidatas ++ [group_text 1 m]
       | None => candidatas
       end)
  end.

(** Step 1 of [_extract_versions_block]: [versao]. *)
Definition scan_versao (text : str) : option str :=
  match re_search re_I CONTROL_VER_RE text with
  | Some mcv =>
    let tail := rest_after mcv in
    let candidatas := candidatas_loop (firstn 120 (splitlines tail)) [] in
    if truthy_list candidatas then Some (last candidatas []) else None
  | None => None
  end.

(** Step 2 of [_extract_versions_block]: [dt_hml] and [dt_prd]. *)
Definition scan_cronograma (text : str) : option str * option str :=
  match re_search re_I HIST_CRONO_RE text with
  | Some mh =>
    let tail := rest_after mh in
    let trecho := join (py "\n") (firstn 250 (splitlines tail)) in
    let datas := re_findall no_flag DATE_DDMMYYYY trecho in
    if (2 <=? List.length datas)%nat
    then (Some (nth (List.length datas - 2) datas []),
          Some (nth (List.length datas - 1) datas []))
    else (None, None)
  | None => (None, None)
  end.

Definition _extract_versions_block (text : str)
  : option str * option str * option str :=
  let versao := scan_versao text in
  let '(dt_hml, dt_prd) := scan_cronograma text in
  (versao, dt_hml, dt_prd).

(** *** [extract_rules_from_pdf] *)

Definition extract_rules_from_pdf (pdf_path : pdf_file) (nt_titulo : str)
  (publicada_em : option str) : list NTRow :=
  let text := _pdf_text pdf_path in
  let '(versao, dt_hml, dt_prd) := _extract_versions_block text in
  let table_rvs := match _parse_rv_tables pdf_path with
                   | Ok l => l
                   | Raise _ => []
                   end in
  let text_rvs := if negb (truthy_list table_rvs) then _parse_rv_text text else [] in
  let rvs := if truthy_list table_rvs then table_rvs else text_rvs in
  if negb (truthy_list rvs) then
    [mkNTRow nt_titulo versao publicada_em dt_hml dt_prd
             None None None None None None]
  else
    let grupo_atual : option str := None in
    map (fun rv =>
           mkNTRow nt_titulo versao publicada_em dt_hml dt_prd grupo_atual
                   (Some (clean_space (rv_campo rv)))
                   (Some (clean_space (rv_regra rv)))
                   (Some (clean_space (rv_aplic rv)))
                   (Some (clean_space (rv_msg rv)))
                   (Some (clean_space (rv_descricao rv))))
        rvs.

(** ** The properties of the specification, as definitions *)

(** A cell of the row whose lowercased text contains [label]. *)
Definition has_label (label : str) (r : row) : bool :=
  existsb (fun c => contains label (lower (or_empty c))) r.

(** A header as the specification describes it: an applicability label with
    a message label, or a description label with a rule label. *)
Definition header_by_labels (r : row) : bool :=
  (has_label (py "aplic") r && has_label (py "msg") r)
  || (has_label (py "descri") r && has_label (py "regra") r).

(** The records of a document: the table path, and the text path only when
    the table path gives none. *)
Definition yielded (f : pdf_file) : list RV :=
  match _parse_rv_tables f with
  | Ok (d :: l) => d :: l
  | _ => _parse_rv_text (_pdf_text f)
  end.

(** A row carries the title, the publication date and the version data. *)
Definition same_meta (title : str) (pub versao hml prd : option str)
  (r : NTRow) : Prop :=
  nt_titulo r = title /\ publicada_em r = pub /\ nt_versao r = versao
  /\ implantacao_homolog r = hml /\ implantacao_producao r = prd.

(** The rule fields of a row. *)
Definition rule_fields (r : NTRow) : list (option str) :=
  [campo r; regra r; aplic r; msg r; descricao r].

(** A header cell that contains "id". *)
Definition has_id (h : str) : bool := contains (py "id") (lower h).

(** The least content of a record of the table path. *)
Definition min_content (d : RV) : Prop :=
  (exists v, In v (rv_values d) /\ v <> [])
  /\ (3 <= List.length (clean_space (rv_descricao d)))%nat
  /\ (3 <= List.length (rv_descricao d))%nat.

(** The version labels of the lines that have the shape of a version
    line, in the order of the lines. *)
Definition version_labels (lines : list str) : list str :=
  flat_map (fun ln => match re_match re_I VERSAO_LINHA_RE (strip ln) with
                      | Some m => [group_text 1 m]
                      | None => []
                      end)
           lines.

(** The last element of a list, if any. *)
Definition last_of {A : Type} (l : list A) : option A :=
  match rev l with x :: _ => Some x | [] => None end.

(** The element before the last, if any. *)
Definition before_last_of {A : Type} (l : list A) : option A :=
  match rev l with _ :: y :: _ => Some y | _ => None end.

(** The version as the specification describes it. *)
Definition spec_version (text : str) : option str :=
  match re_search re_I CONTROL_VER_RE text with
  | Some m => last_of (version_labels (firstn 120 (splitlines (rest_after m))))
  | None => None
  end.

(** The dates of the schedule as the specification describes them. *)
Definition schedule_dates (text : str) : option (list str) :=
  match re_search re_I HIST_CRONO_RE text with
  | Some m => Some (re_findall no_flag DATE_DDMMYYYY
                      (join (py "\n") (firstn 250 (splitlines (rest_after m)))))
  | None => None
  end.

Definition spec_staging (text : str) : option str :=
  match schedule_dates text with
  | Some ds => if (2 <=? List.length ds)%nat then before_last_of ds else None
  | None => None
  end.

Definition spec_production (text : str) : option str :=
  match schedule_dates text with
  | Some ds => if (2 <=? List.length ds)%nat then last_of ds else None
  | None => None
  end.

(** *** Example inputs *)

Definition cells (l : list string) : row := map (fun x => Some (py x)) l.

Definition ex_header : row := cells ["Campo"; "Regra"; "Aplic."; "Msg"; "Descrição"]%string.
Definition ex_header_cstat : row := cells ["Aplic."; "Mensagem"; "Cstat"]%string.
Definition ex_header_msg : row := cells ["Aplic."; "Msg"; "Cstat"]%string.
Definition ex_data : row :=
  cells ["B09"; "B09-20"; "Obrig."; "656"; "Campo obrigatório"]%string.
Definition ex_title_row : row := cells ["Anexo I"]%string.

Definition ex_rv : RV :=
  mkRV (py "B09") (py "B09-20") (py "Obrig.") (py "656") (py "Campo obrigatório").
Definition ex_rv_header : RV :=
  mkRV (py "Campo") (py "Regra") (py "Aplic.") (py "Msg") (py "Descrição").

(** A file whose pages hold the given tables under the first setting only. *)
Definition pdf_of_tables (text : str) (tables : list table) : pdf_file :=
  mkPdf (Some [Some text])
        (Some [mkPage (fun ts => match ts with Lines => Some tables | _ => Some [] end)]).

Definition ex_pdf : pdf_file := pdf_of_tables [] [[ex_header; ex_data]].

Definition ex_id_header : row := cells ["ID"; "Aplic."; "Msg"; "Descrição"]%string.
Definition ex_id_data : row := cells ["X1"; "Obrig."; "656"; "Campo obrigatório"]%string.
Definition ex_id_cells : list str := [py "ID"; py "Aplic."; py "Msg"; py "Descrição"].
Definition ex_id_rv : RV :=
  mkRV (py "X1") (py "X1") (py "Obrig.") (py "656") (py "Campo obrigatório").

Definition ex_text_section : str :=
  py "7. Regras de Validação\n\nObrig. 656 Rejeição: Valor inválido".
Definition ex_text_section_later : str :=
  py "Nota Técnica\n7. Regras de Validação\n\nObrig. 656 Rejeição: Valor inválido".
Definition ex_paragraph : str := py "Obrig. 656 Rejeição: Valor inválido".

Definition ex_versions : str :=
  py "Controle de Versões\n1.00 01/2025 foo\n1.10 03/2025 bar\n1.20 06/2025 baz\n".
Definition ex_schedule : str :=
  py "Histórico de Alterações / Cronograma\nTeste 01/03/2025\nHomologação 15/06/2025\nProdução 01/07/2025\n".

(** *** Runs of characters

    The three patterns of [clean_space] each match a run of characters of
    one class; these functions describe what substituting such a pattern
    does, without the matcher. *)

(** The length of the longest prefix of [s] in the class. *)
Fixpoint run_len (cls : char -> bool) (s : str) : nat :=
  match s with
  | c :: s' => if cls c then S (run_len cls s') else O
  | [] => O
  end.

(** The cursor after the longest prefix in the class. *)
Fixpoint skip_run (cls : char -> bool) (bef aft : str) : str * str :=
  match aft with
  | c :: aft' => if cls c then skip_run cls (c :: bef) aft' else (bef, aft)
  | [] => (bef, aft)
  end.

(** The run at the start of [s] holds a newline. *)
Fixpoint run_has_nl (s : str) : bool :=
  match s with
  | c :: s' => isspace c && ((c =? ch_nl) || run_has_nl s')
  | [] => false
  end.

(** A pattern that matches the whole run at the cursor when [fires] holds
    there: the characters of the match after its first one. *)
Definition run_match (cls : char -> bool) (fires : str -> bool) (aft : str)
  : option nat :=
  match run_len cls aft with
  | S n => if fires aft then Some n else None
  | O => None
  end.

(** Substitution of such a pattern by [repl]; [dropping] holds inside a
    run that is being replaced. *)
Fixpoint squeeze (cls : char -> bool) (fires : str -> bool) (repl : str)
  (dropping : bool) (s : str) : str :=
  match s with
  | [] => []
  | c :: s' =>
    if cls c then
      if dropping then squeeze cls fires repl true s'
      else if fires s then repl ++ squeeze cls fires repl true s'
           else c :: squeeze cls fires repl false s'
    else c :: squeeze cls fires repl false s'
  end.

Definition is_blank (c : char) : bool := (c =? ch_space) || (c =? ch_tab).
Definition is_nl (c : char) : bool := c =? ch_nl.
Definition always (s : str) : bool := true.
Definition three_nl (s : str) : bool := (3 <=? run_len is_nl s)%nat.

(** No two neighbours of [s] are a [bad] pair. *)
Fixpoint no_adj (bad : char -> char -> bool) (s : str) : bool :=
  match s with
  | a :: s' =>
    match s' with
    | b :: _ => negb (bad a b) && no_adj bad s'
    | [] => true
    end
  | [] => true
  end.

(** Two spaces side by side. *)
Definition two_spaces (a b : char) : bool := (a =? ch_space) && (b =? ch_space).
(** A newline beside a whitespace character. *)
Definition nl_beside_space (a b : char) : bool :=
  ((a =? ch_nl) && isspace b) || (isspace a && (b =? ch_nl)).

Definition head_ok (p : char -> bool) (s : str) : bool :=
  match s with c :: _ => p c | [] => true end.

(** The form of the texts [clean_space] returns: no non-breaking space, no
    tab, no two spaces side by side, no newline beside whitespace, no
    whitespace at either end. *)
Definition normal (s : str) : Prop :=
  ~ In ch_nbsp s /\ ~ In ch_tab s
  /\ no_adj two_spaces s = true
  /\ no_adj nl_beside_space s = true
  /\ head_ok (fun c => negb (isspace c)) s = true
  /\ head_ok (fun c => negb (isspace c)) (rev s) = true.

(** *** Groups of a pattern *)

(** The pattern has a group numbered [n]. *)
Fixpoint mentions (n : nat) (r : regex) : bool :=
  match r with
  | Cat r1 r2 | Alt r1 r2 => mentions n r1 || mentions n r2
  | Grp m r1 => Nat.eqb m n || mentions n r1
  | _ => false
  end.

(** Group [n] lies on every path through the pattern. *)
Fixpoint sets (n : nat) (r : regex) : bool :=
  match r with
  | Cat r1 r2 => sets n r1 || sets n r2
  | Alt r1 r2 => sets n r1 && sets n r2
  | Grp m r1 => Nat.eqb m n || sets n r1
  | _ => false
  end.

(** ** More of agente_nts/utils.py *)

(** [\s+] *)
Definition SPACES_RE : regex := many1 ws.

(** [normalize_href(href)]; [href] is what [a.get("href")] gives, a text
    or [None]. *)
Definition normalize_href (href : option str) : option str :=
  match href with
  | None => None
  | Some s =>
    if negb (truthy s) then Some s
    else
      let s := replace (py "\n") [] (replace (py "\r") [] s) in
      Some (re_sub no_flag SPACES_RE [] s)
  end.

(** A [bytes] value: its bytes as numbers. *)
Definition bytes := list N.

(** [b.rfind(sub)]: the highest index at which [sub] starts in [b], or -1.
    [i] is the index of the head of [b], [found] the highest index found
    so far. *)
Fixpoint rfind_from (sub b : bytes) (i found : Z) : Z :=
  let found' := if starts_with sub b then i else found in
  match b with
  | [] => found'
  | _ :: b' => rfind_from sub b' (i + 1)%Z found'
  end.

Definition rfind (sub b : bytes) : Z := rfind_from sub b 0%Z (-1)%Z.

(** [is_probably_pdf_bytes(b)] *)
Definition is_probably_pdf_bytes (b : bytes) : bool :=
  starts_with (py "%PDF") b && negb (rfind (py "%%EOF") b =? -1)%Z.

Definition ex_messy_cell : str := py "  Cod.\xa0\tregra \n\n x ".
Definition ex_pdf_bytes : bytes := py "%PDF-1.7\nobj\n%%EOF\n".

Definition ex_wide_header : row :=
  cells ["A"; "B"; "C"; "D"; "E"; "F"; "Regra"; "Descrição"]%string.
Definition ex_short_row : row := cells ["x"]%string.
Definition ex_cstat_data : row := cells ["Obrig."; "656"; "Rejeição: valor inválido"]%string.
Definition ex_pdf_no_text : pdf_file :=
  mkPdf None
        (Some [mkPage (fun ts => match ts with
                                 | Lines => Some [[ex_header; ex_data]]
                                 | _ => None
                                 end)]).

(** The records of a further run, put after the records [out]. *)
Definition then_append (out : list RV) (x : result (list RV)) : result (list RV) :=
  match x with Ok n => Ok (out ++ n) | Raise e => Raise e end.

(** *** The texts a pattern can match *)

(** [w] is a text the pattern can match, whatever stands around it. *)
Fixpoint lang (ic : bool) (r : regex) (w : str) : Prop :=
  match r with
  | Eps | Bos | Eos | Wordb => w = []
  | One a => exists c, w = [c] /\ atom_ok ic a c = true
  | Cat r1 r2 => exists w1 w2, w = w1 ++ w2 /\ lang ic r1 w1 /\ lang ic r2 w2
  | Alt r1 r2 => lang ic r1 w \/ lang ic r2 w
  | Rep a lo hi =>
    Forall (fun c => atom_ok ic a c = true) w
    /\ (lo <= List.length w)%nat
    /\ match hi with Some h => (List.length w <= h)%nat | None => True end
  | Grp _ r1 => lang ic r1 w
  end.

(** Two digits, a slash, two digits, a slash, four digits. *)
Definition is_date_shape (s : str) : bool :=
  match s with
  | [d1; d2; s1; m1; m2; s2; y1; y2; y3; y4] =>
    forallb isdigit [d1; d2; m1; m2; y1; y2; y3; y4] && (s1 =? 47) && (s2 =? 47)
  | _ => false
  end.


(** ** agente_nts/fetch_nts.py *)

(** A [datetime.date]. *)
Record date : Type := mkDate { year : N; month : N; day : N }.

Definition is_leap (y : N) : bool :=
  (y mod 4 =? 0) && (negb (y mod 100 =? 0) || (y mod 400 =? 0)).

Definition days_in_month (y m : N) : N :=
  if m =? 2 then (if is_leap y then 29 else 28)
  else if (m =? 4) || (m =? 6) || (m =? 9) || (m =? 11) then 30
  else 31.

(** The dates [datetime.date] accepts. *)
Definition valid_date (y m d : N) : bool :=
  (1 <=? y) && (y <=? 9999) && (1 <=? m) && (m <=? 12)
  && (1 <=? d) && (d <=? days_in_month y m).

(** [a >= b] on dates. *)
Definition date_ge (a b : date) : bool :=
  (year b <? year a)
  || ((year a =? year b)
      && ((month b <? month a)
          || ((month a =? month b) && (day b <=? day a)))).

Definition digit_val (c : char) : N := c - 48.
Definition digit_chr (n : N) : char := n + 48.

(** [datetime.strptime(s, "%d/%m/%Y").date()] on a text of the shape
    dd/mm/yyyy, the only texts the pattern [PUBLI_RE] gives (lemma
    [publi_match_label] below); [None] stands for [ValueError], raised for
    a day or a month that does not exist and for the year 0000. *)
Definition strptime_dmy (s : str) : option date :=
  match s with
  | [d1; d2; s1; m1; m2; s2; y1; y2; y3; y4] =>
    if is_date_shape s then
      let d := 10 * digit_val d1 + digit_val d2 in
      let m := 10 * digit_val m1 + digit_val m2 in
      let y := 1000 * digit_val y1 + 100 * digit_val y2
               + 10 * digit_val y3 + digit_val y4 in
      if valid_date y m d then Some (mkDate y m d) else None
    else None
  | _ => None
  end.

(** [d.strftime("%d/%m/%Y")], for the years from 1000 on (before, the
    width of [%Y] depends on the platform). *)
Definition strftime_dmy (d : date) : str :=
  [digit_chr (day d / 10); digit_chr (day d mod 10); 47;
   digit_chr (month d / 10); digit_chr (month d mod 10); 47;
   digit_chr (year d / 1000 mod 10); digit_chr (year d / 100 mod 10);
   digit_chr (year d / 10 mod 10); digit_chr (year d mod 10)].

(** The dataclass [NTLink]. *)
Record NTLink : Type := mkNTLink {
  titulo : str;
  link_publicada_em : option date;
  href_pdf : str;
  slug : str
}.

(** [Publicada\s+em\s+(\d{2}/\d{2}/\d{4})], [re.I] *)
Definition PUBLI_RE : regex :=
  (lit "Publicada" +> many1 ws +> lit "em" +> many1 ws
   +> Grp 1 (times digit 2 2 +> lit "/" +> times digit 2 2 +> lit "/"
             +> times digit 4 4))%re.

Definition _parse_publish_date (txt : str) : option date :=
  match re_search re_I PUBLI_RE txt with
  | None => None
  | Some m => strptime_dmy (group_text 1 m)
  end.

(** What BeautifulSoup gives for one [a] element of the list page:
    [a.get("href")], the text [get_text(" ", strip=True)] of its parent
    ([None] when it has no parent) and its own text. *)
Record anchor : Type := mkAnchor {
  a_href : option str;
  a_parent_text : option str;
  a_text : str
}.

(** [s.split()]: the words of [s] between whitespace. *)
Fixpoint split_ws_from (word_rev : str) (s : str) : list str :=
  match s with
  | [] => match word_rev with [] => [] | _ :: _ => [rev word_rev] end
  | c :: s' =>
    if isspace c then
      match word_rev with
      | [] => split_ws_from [] s'
      | _ :: _ => rev word_rev :: split_ws_from [] s'
      end
    else split_ws_from (c :: word_rev) s'
  end.

Definition split_ws (s : str) : list str := split_ws_from [] s.

(** [s.split(sep)] for a non-empty [sep]. *)
Fixpoint split_sep_loop (sep : str) (skip : nat) (piece_rev : str) (s : str)
  : list str :=
  match s with
  | [] => [rev piece_rev]
  | c :: s' =>
    match skip with
    | S n => split_sep_loop sep n piece_rev s'
    | O =>
      if starts_with sep s
      then rev piece_rev :: split_sep_loop sep (pred (List.length sep)) [] s'
      else split_sep_loop sep 0 (c :: piece_rev) s'
    end
  end.

Definition str_split (sep s : str) : list str := split_sep_loop sep 0 [] s.

Definition is_ascii_alnum (c : char) : bool :=
  in_range "a" "z" c || in_range "A" "Z" c || in_range "0" "9" c.

(** [[^a-zA-Z0-9]+] *)
Definition NON_ALNUM_RE : regex := many1 (Cls (fun c => negb (is_ascii_alnum c))).

Definition PORTAL_HOST : str := py "https://www.nfe.fazenda.gov.br".

(** The URL of the PDF, absolute. *)
Definition absolute_href (href : str) : str :=
  if starts_with (py "/") href then PORTAL_HOST ++ href
  else if starts_with (py "http") (lower href) then href
  else PORTAL_HOST ++ py "/portal/" ++ href.

(** The name for the file. *)
Definition slug_of (href_pdf titulo : str) : str :=
  let slug := firstn 32 (re_sub no_flag NON_ALNUM_RE []
                           (last (str_split (py "conteudo=") href_pdf) [])) in
  if negb (truthy slug) then
    let slug := firstn 32 (re_sub no_flag NON_ALNUM_RE [] titulo) in
    if truthy slug then slug else py "nt"
  else slug.

(** The body of the loop over the [a] elements: the link appended to
    [nts], if any. *)
Definition link_of_anchor (min_date : date) (a : anchor) : option NTLink :=
  let raw_href := a_href a in
  let href := normalize_href raw_href in
  if negb (truthy (or_empty href)) then None
  else
    let href := or_empty href in
    let parent_text := match a_parent_text a with
                       | Some t => join (py " ") (split_ws t)
                       | None => []
                       end in
    let titulo := a_text a in
    let publicada := match _parse_publish_date parent_text with
                     | Some d => Some d
                     | None => _parse_publish_date titulo
                     end in
    let href_pdf := absolute_href href in
    let slug := slug_of href_pdf titulo in
    match publicada with
    | Some d =>
      if date_ge d min_date
      then Some (mkNTLink titulo publicada href_pdf slug)
      else None
    | None => None
    end.

Fixpoint nts_loop (min_date : date) (anchors : list anchor) (nts : list NTLink)
  : list NTLink :=
  match anchors with
  | [] => nts
  | a :: anchors' =>
    nts_loop min_date anchors'
      (match link_of_anchor min_date a with
       | Some nt => nts ++ [nt]
       | None => nts
       end)
  end.

Definition str_in (s : str) (seen : list str) : bool :=
  existsb (fun x => if list_eq_dec N.eq_dec x s then true else false) seen.

(** The loop that drops the links whose URL came before; [seen] is the
    set of the URLs met. *)
Fixpoint unique_loop (nts : list NTLink) (seen : list str) (unique : list NTLink)
  : list NTLink :=
  match nts with
  | [] => unique
  | nt :: nts' =>
    if str_in (href_pdf nt) seen then unique_loop nts' seen unique
    else unique_loop nts' (href_pdf nt :: seen) (unique ++ [nt])
  end.

(** [discover_nts_by_publish_date(min_date)] on the [a] elements the
    selector gives for the list page; a failed request raises before. *)
Definition discover_nts_by_publish_date (anchors : list anchor) (min_date : date)
  : list NTLink :=
  unique_loop (nts_loop min_date anchors []) [] [].

(** [MIN_DATE] of settings.py. *)
Definition MIN_DATE : date := mkDate 2025 1 1.

(** The files of [PDF_DIR]: names and bytes, the latest written first. *)
Definition files := list (str * bytes).

Definition str_eqb (a b : str) : bool :=
  if list_eq_dec N.eq_dec a b then true else false.

Definition write_file (name : str) (b : bytes) (fs : files) : files :=
  (name, b) :: fs.

Fixpoint read_file (name : str) (fs : files) : option bytes :=
  match fs with
  | [] => None
  | (n, b) :: fs' => if str_eqb n name then Some b else read_file name fs'
  end.

(** What [requests.get] gives for the URL of a PDF: the header
    [Content-Type], if any, the bytes of the body, and the bytes of
    [resp.text] in the encoding of the response. *)
Record response : Type := mkResponse {
  content_type : option str;
  content : bytes;
  text_encoded : bytes
}.

(** [ensure_pdf_downloaded(nt)]: the name, in [PDF_DIR], of the PDF file
    written, or [None], and the files after the call; [resp] is [None] when
    the request raises. *)
Definition ensure_pdf_downloaded (nt : NTLink) (resp : option response)
  (fs : files) : option str * files :=
  match resp with
  | None => (None, fs)
  | Some resp =>
    let content_type := or_empty (content_type resp) in
    let content := content resp in
    if contains (py "pdf") (lower content_type) || is_probably_pdf_bytes content
    then let out := slug nt ++ py ".pdf" in
         (Some out, write_file out content fs)
    else let out := slug nt ++ py ".html" in
         (None, write_file out (text_encoded resp) fs)
  end.

(** ** agente_nts/excel.py *)

Definition COLUMNS : list str :=
  [py "NT"; py "Versão"; py "Publicada em"; py "Implantação Homologação";
   py "Implantação Produção"; py "Grupo"; py "Campo"; py "Regra";
   py "Aplic."; py "Msg"; py "Descrição"].

(** A dict from column names to cell values, as the list of its items. *)
Definition dict := list (str * option str).

Fixpoint dict_get (key : str) (d : dict) : option (option str) :=
  match d with
  | [] => None
  | (k, v) :: d' => if str_eqb k key then Some v else dict_get key d'
  end.

(** A sheet: the header line and the lines of cells; [None] is an empty
    cell. *)
Record sheet : Type := mkSheet {
  sheet_header : list str;
  sheet_rows : list (list (option str))
}.

(** [pd.DataFrame(rows, columns=columns)] on a list of dicts: for every
    dict the values under the columns; a column the dict has no key for is
    empty. *)
Definition data_frame (rows : list dict) (columns : list str) : sheet :=
  mkSheet columns
          (map (fun d => map (fun c => match dict_get c d with
                                       | Some v => v
                                       | None => None
                                       end) columns) rows).

(** [write_rules_to_xlsx(rows, out_path)]: the sheet written. *)
Definition write_rules_to_xlsx (rows : list dict) : sheet :=
  data_frame rows COLUMNS.

(** ** agente_nts/main.py *)

(** The dict [run] appends to [all_rows] for a row. *)
Definition sheet_dict (r : NTRow) : dict :=
  [(py "NT", Some (nt_titulo r));
   (py "Versão", nt_versao r);
   (py "Publicada em", publicada_em r);
   (py "Implantação Homologação", implantacao_homolog r);
   (py "Implantação Produção", implantacao_producao r);
   (py "Grupo", grupo r);
   (py "Campo", campo r);
   (py "Regra", regra r);
   (py "Aplic.", aplic r);
   (py "Msg", msg r);
   (py "Descrição", descricao r)].

(** The row [run] writes for a document without rules. *)
Definition metadata_row (nt_titulo : str) (publicada_em : option str) : NTRow :=
  mkNTRow nt_titulo None publicada_em None None None None None None None None.

(** What the PDF libraries give for the file [name]: [open_pdf] on its
    bytes; on a missing file both libraries raise. *)
Definition pdf_at (open_pdf : bytes -> pdf_file) (fs : files) (name : str)
  : pdf_file :=
  match read_file name fs with
  | Some b => open_pdf b
  | None => mkPdf None None
  end.

(** The loop of [run] over the links.  [download] is what [requests.get]
    gives for a URL, [open_pdf] what the PDF libraries give for the bytes of
    a file.  [extract_rules_from_pdf] catches what the PDF libraries raise, so
    the handler of [run] around it has nothing to catch here.  The links
    come from [discover_nts_by_publish_date] with [MIN_DATE], their years
    have four digits. *)
Fixpoint run_loop (download : str -> option response)
  (open_pdf : bytes -> pdf_file) (nts : list NTLink) (fs : files)
  (all_rows : list dict) (total_rules : nat) : list dict * nat * files :=
  match nts with
  | [] => (all_rows, total_rules, fs)
  | nt :: nts' =>
    let '(pdf, fs) := ensure_pdf_downloaded nt (download (href_pdf nt)) fs in
    let publicada_em := option_map strftime_dmy (link_publicada_em nt) in
    match pdf with
    | None =>
      let row := metadata_row (titulo nt) publicada_em in
      run_loop download open_pdf nts' fs (all_rows ++ [sheet_dict row])
               total_rules
    | Some pdf =>
      let rows := extract_rules_from_pdf (pdf_at open_pdf fs pdf) (titulo nt)
                                         publicada_em in
      run_loop download open_pdf nts' fs (all_rows ++ map sheet_dict rows)
               (total_rules
                + List.length (filter (fun r => truthy (or_empty (descricao r)))
                                      rows))%nat
    end
  end.

(** [run()]: the sheet written to [OUTPUT_XLSX], the number logged as the
    rules collected, and the files of [PDF_DIR] after the run.  [anchors] are
    the [a] elements of the list page, [fs] the files before the run. *)
Definition run (anchors : list anchor) (download : str -> option response)
  (open_pdf : bytes -> pdf_file) (fs : files) : sheet * nat * files :=
  let nts := discover_nts_by_publish_date anchors MIN_DATE in
  if negb (truthy_list nts) then
    (data_frame []
       [py "NT"; py "Versão"; py "Publicada em"; py "Implantação Homologação";
        py "Implantação Produção"; py "Grupo"; py "Campo"; py "Regra";
        py "Aplic."; py "Msg"; py "Descrição"],
     O, fs)
  else
    let '(all_rows, total_rules, fs) :=
      run_loop download open_pdf nts fs [] 0 in
    (write_rules_to_xlsx all_rows, total_rules, fs).


Definition ex_anchor : anchor :=
  mkAnchor (Some (py "exibirArquivo.aspx?conteudo=aB%2f 12\n3="))
           (Some (py "NT 2025.001 v1.20\n  publicada  EM 15/03/2025"))
           (py "NT 2025.001 v1.20").

Definition ex_link : NTLink :=
  mkNTLink (py "NT 2025.001 v1.20") (Some (mkDate 2025 3 15))
           (py "https://www.nfe.fazenda.gov.br/portal/exibirArquivo.aspx?conteudo=aB%2f123=")
           (py "aB2f123").

(** The same file under another title, and a link published before
    [MIN_DATE]. *)
Definition ex_anchor_again : anchor :=
  mkAnchor (Some (py "exibirArquivo.aspx?conteudo=aB%2f123="))
           None
           (py "Publicada em 16/03/2025").

Definition ex_anchor_old : anchor :=
  mkAnchor (Some (py "/portal/exibirArquivo.aspx?conteudo=old"))
           (Some (py "Publicada em 31/12/2024"))
           (py "NT 2024.003").

(** The cells of a row, in the order of [COLUMNS]. *)
Definition sheet_cells (r : NTRow) : list (option str) :=
  [Some (nt_titulo r); nt_versao r; publicada_em r; implantacao_homolog r;
   implantacao_producao r; grupo r; campo r; regra r; aplic r; msg r;
   descricao r].

(** A response taken for a PDF. *)
Definition taken_for_pdf (r : response) : bool :=
  contains (py "pdf") (lower (or_empty (content_type r)))
  || is_probably_pdf_bytes (content r).

(** The rows of one link: those of the document downloaded for it, or the
    row of its title and date when no PDF came. *)
Definition link_rows (download : str -> option response)
  (open_pdf : bytes -> pdf_file) (nt : NTLink) : list NTRow :=
  let publicada_em := option_map strftime_dmy (link_publicada_em nt) in
  match download (href_pdf nt) with
  | Some r =>
    if taken_for_pdf r
    then extract_rules_from_pdf (open_pdf (content r)) (titulo nt) publicada_em
    else [metadata_row (titulo nt) publicada_em]
  | None => [metadata_row (titulo nt) publicada_em]
  end.

(** The records the table parser finds in the document of a link. *)
Definition link_records (download : str -> option response)
  (open_pdf : bytes -> pdf_file) (nt : NTLink) : list RV :=
  match download (href_pdf nt) with
  | Some r =>
    if taken_for_pdf r
    then match _parse_rv_tables (open_pdf (content r)) with
         | Ok l => l
         | Raise _ => []
         end
    else []
  | None => []
  end.

(** A cell with a text that is not empty. *)
Definition filled (c : option str) : bool := truthy (or_empty c).

Definition ex_server (url : str) : option response :=
  Some (mkResponse (Some (py "Application/PDF")) ex_pdf_bytes []).

(** A line of the sheet with a rule: one of the cells from [Grupo] on
    holds a value. *)
Definition has_rule_cell (cells : list (option str)) : bool :=
  existsb (fun c => match c with Some _ => true | None => false end)
          (skipn 5 cells).

(** ** Proofs *)

(** Split conjunctions only, then evaluate closed goals. *)
Ltac conjs := repeat match goal with |- _ /\ _ => split end.
Ltac run := conjs; vm_compute; reflexivity.

(** *** The matcher on runs *)

Lemma run_len_ext (f g : char -> bool) (s : str) :
  (forall c, f c = g c) -> run_len f s = run_len g s.
Proof.
  intros E. induction s as [|c s IH]; simpl; [reflexivity|].
  rewrite E, IH. reflexivity.
Qed.

Lemma skip_run_ext (f g : char -> bool) (bef aft : str) :
  (forall c, f c = g c) -> skip_run f bef aft = skip_run g bef aft.
Proof.
  intros E. revert bef. induction aft as [|c s IH]; intros bef; simpl; [reflexivity|].
  rewrite E, IH. reflexivity.
Qed.

Lemma skip_run_length (cls : char -> bool) (bef aft : str) :
  List.length (fst (skip_run cls bef aft)) = (run_len cls aft + List.length bef)%nat.
Proof.
  revert bef. induction aft as [|c s IH]; intros bef; simpl; [reflexivity|].
  destruct (cls c); simpl; [|reflexivity].
  rewrite IH. simpl. lia.
Qed.

Lemma greedy_ext {R : Type} (ok ok' : char -> bool)
  (k k' : str -> str -> option R) (lo : nat) (hi : option nat) (bef aft : str) :
  (forall c, ok c = ok' c) -> (forall b a, k b a = k' b a) ->
  greedy ok k lo hi bef aft = greedy ok' k' lo hi bef aft.
Proof.
  intros Eo Ek. revert lo hi bef.
  induction aft as [|c s IH]; intros lo hi bef; simpl.
  - now rewrite Ek.
  - rewrite Eo, IH, Ek. reflexivity.
Qed.

(** An open repetition before the end of the pattern takes the whole run. *)
Lemma greedy_last {R : Type} (ok : char -> bool) (f : str -> str -> R)
  (lo : nat) (bef aft : str) :
  greedy ok (fun b a => Some (f b a)) lo None bef aft
  = if (lo <=? run_len ok aft)%nat
    then Some (f (fst (skip_run ok bef aft)) (snd (skip_run ok bef aft)))
    else None.
Proof.
  revert lo bef. induction aft as [|c s IH]; intros lo bef.
  - destruct lo; reflexivity.
  - cbn [greedy hi_open andb option_map run_len skip_run].
    destruct (ok c).
    + rewrite IH.
      destruct lo as [|lo]; cbn [pred Nat.leb].
      * reflexivity.
      * destruct (lo <=? run_len ok s)%nat; reflexivity.
    + destruct lo; reflexivity.
Qed.

Lemma span_length (bef aft b1 a1 : str) (c0 c1 : list (nat * str)) :
  List.length (span (Cursor bef aft c0) (Cursor b1 a1 c1))
  = Nat.min (List.length b1 - List.length bef) (List.length b1).
Proof. unfold span. cbn [before]. now rewrite length_rev, length_firstn. Qed.

Lemma match_len_run (cls : char -> bool) (bef aft : str) (c0 c1 : list (nat * str)) :
  match_len (RMatch (Cursor bef aft c0)
                    (Cursor (fst (skip_run cls bef aft)) (snd (skip_run cls bef aft)) c1))
  = run_len cls aft.
Proof.
  unfold match_len, matched. cbn [m_start m_end].
  rewrite span_length, skip_run_length. lia.
Qed.

Lemma is_blank_any_of (c : char) : any_of " \t" c = is_blank c.
Proof.
  unfold any_of, is_blank. change (py " \t") with [ch_space; ch_tab].
  cbn [existsb]. now rewrite orb_false_r.
Qed.

(** [[ \t]+] matches the run of blanks at the cursor. *)
Lemma blanks_match (bef aft : str) :
  option_map snd (nonempty_match no_flag BLANKS_RE bef aft)
  = run_match is_blank always aft.
Proof.
  unfold nonempty_match, match_at, BLANKS_RE, many1.
  cbn [exec before after caps]. rewrite greedy_last.
  rewrite (skip_run_ext _ is_blank), (run_len_ext _ is_blank)
    by (intros c; unfold atom_ok, no_flag; cbn [andb];
        rewrite orb_false_r; apply is_blank_any_of).
  unfold run_match, always.
  destruct (run_len is_blank aft) as [|n] eqn:E; [reflexivity|].
  cbn [Nat.leb]. rewrite match_len_run, E. reflexivity.
Qed.

(** [\n{3,}] matches the run of newlines at the cursor when it has three
    or more of them. *)
Lemma newlines3_match (bef aft : str) :
  option_map snd (nonempty_match no_flag NEWLINES3_RE bef aft)
  = run_match is_nl three_nl aft.
Proof.
  unfold nonempty_match, match_at, NEWLINES3_RE.
  cbn [exec before after caps]. rewrite greedy_last.
  rewrite (skip_run_ext _ is_nl), (run_len_ext _ is_nl)
    by (intros c; reflexivity).
  unfold run_match, three_nl.
  destruct (Nat.leb_spec 3 (run_len is_nl aft)) as [H|H].
  - rewrite match_len_run.
    destruct (run_len is_nl aft) as [|n]; [lia|reflexivity].
  - destruct (run_len is_nl aft); reflexivity.
Qed.

Lemma nl_is_space (c : char) : (c =? ch_nl) = true -> isspace c = true.
Proof. intros H. apply N.eqb_eq in H. subst c. reflexivity. Qed.

Lemma run_has_nl_len (s : str) :
  run_has_nl s = true -> (1 <= run_len isspace s)%nat.
Proof.
  destruct s as [|c s]; simpl; [discriminate|].
  destruct (isspace c); simpl; [lia|discriminate].
Qed.

(** [\s*\n\s*]: the first repetition gives characters back up to the last
    newline of the run, the second takes the rest of the run. *)
Lemma greedy_newline {R : Type} (f : str -> str -> R) (bef aft : str) :
  greedy isspace
    (fun b a =>
       match a with
       | c :: a' =>
         if c =? ch_nl
         then greedy isspace (fun b1 a1 => Some (f b1 a1)) 0 None (c :: b) a'
         else None
       | [] => None
       end)
    0 None bef aft
  = if run_has_nl aft
    then Some (f (fst (skip_run isspace bef aft)) (snd (skip_run isspace bef aft)))
    else None.
Proof.
  revert bef. induction aft as [|c s IH]; intros bef.
  - reflexivity.
  - cbn [greedy hi_open andb option_map pred run_has_nl skip_run].
    destruct (isspace c) eqn:Hc; cbn [andb].
    + rewrite IH. destruct (run_has_nl s) eqn:Hs.
      * now rewrite orb_true_r.
      * rewrite orb_false_r. destruct (c =? ch_nl); [|reflexivity].
        rewrite greedy_last. reflexivity.
    + destruct (c =? ch_nl) eqn:Hn; [|reflexivity].
      apply nl_is_space in Hn. congruence.
Qed.

Lemma newline_match (bef aft : str) :
  option_map snd (nonempty_match no_flag NEWLINE_RE bef aft)
  = run_match isspace run_has_nl aft.
Proof.
  unfold nonempty_match, match_at, NEWLINE_RE, many, ws, no_flag.
  cbn [exec before after caps atom_ok andb].
  rewrite (greedy_ext _ isspace _
    (fun b a =>
       match a with
       | c :: a' =>
         if c =? ch_nl
         then greedy isspace
                (fun b1 a1 => Some (RMatch (Cursor bef aft []) (Cursor b1 a1 [])))
                0 None (c :: b) a'
         else None
       | [] => None
       end)).
  2:{ intros c; apply orb_false_r. }
  2:{ intros b a. destruct a as [|c a]; [reflexivity|].
      destruct (c =? ch_nl); [|reflexivity].
      apply greedy_ext; [intros c'; apply orb_false_r | reflexivity]. }
  rewrite (greedy_newline (fun b1 a1 =>
             RMatch (Cursor bef aft []) (Cursor b1 a1 []))).
  unfold run_match.
  destruct (run_has_nl aft) eqn:H.
  - rewrite match_len_run. apply run_has_nl_len in H.
    destruct (run_len isspace aft); [lia|reflexivity].
  - destruct (run_len isspace aft); reflexivity.
Qed.

(** *** What a match leaves in the groups *)

Lemma get_set_cap_same (n : nat) (v : str) (l : list (nat * str)) :
  get_cap n (set_cap n v l) = Some v.
Proof.
  induction l as [|[m w] l IH]; simpl.
  - now rewrite Nat.eqb_refl.
  - destruct (Nat.eqb m n) eqn:E; simpl; [now rewrite Nat.eqb_refl|].
    now rewrite E.
Qed.

Lemma get_set_cap_other (n m : nat) (v : str) (l : list (nat * str)) :
  Nat.eqb m n = false -> get_cap n (set_cap m v l) = get_cap n l.
Proof.
  intros H. induction l as [|[p w] l IH]; simpl.
  - now rewrite H.
  - destruct (Nat.eqb p m) eqn:E; simpl.
    + apply Nat.eqb_eq in E. subst p. now rewrite H.
    + destruct (Nat.eqb p n); [reflexivity|exact IH].
Qed.

Lemma greedy_calls {R : Type} (ok : char -> bool) (k : str -> str -> option R)
  (lo : nat) (hi : option nat) (bef aft : str) (m : R) :
  greedy ok k lo hi bef aft = Some m -> exists b a, k b a = Some m.
Proof.
  revert lo hi bef. induction aft as [|c s IH]; intros lo hi bef H.
  - simpl in H. destruct lo; [now exists bef, []|discriminate].
  - cbn [greedy] in H.
    assert (Hstop : match lo with O => k bef (c :: s) | S _ => None end = Some m ->
                    exists b a, k b a = Some m).
    { destruct lo; [|discriminate]. intros E. now exists bef, (c :: s). }
    destruct (hi_open hi && ok c); [|now apply Hstop].
    destruct (greedy ok k (pred lo) (option_map pred hi) (c :: bef) s) eqn:E.
    + injection H as ->. now apply IH in E.
    + now apply Hstop.
Qed.

(** A successful match runs the rest of the pattern at some cursor; there
    the groups the pattern does not have are as before, and the groups on
    every path of the pattern, like the groups set before, have a text. *)
Lemma exec_caps {R : Type} (ic : bool) (r : regex) :
  forall (k : cursor -> option R) (cur : cursor) (m : R),
    exec ic r k cur = Some m ->
    exists cur',
      k cur' = Some m
      /\ (forall n, mentions n r = false ->
                    get_cap n (caps cur') = get_cap n (caps cur))
      /\ (forall n, sets n r = true \/ get_cap n (caps cur) <> None ->
                    get_cap n (caps cur') <> None).
Proof.
  assert (Hsame : forall (k : cursor -> option R) cur m,
             k cur = Some m ->
             exists cur',
               k cur' = Some m
               /\ (forall n, false = false ->
                             get_cap n (caps cur') = get_cap n (caps cur))
               /\ (forall n, false = true \/ get_cap n (caps cur) <> None ->
                             get_cap n (caps cur') <> None)).
  { intros k cur m H. exists cur. repeat split; [exact H|].
    intros n [E|E]; [discriminate|exact E]. }
  induction r as [|a|r1 IH1 r2 IH2|r1 IH1 r2 IH2|a lo hi|g r1 IH1| | |];
    intros k cur m H; cbn [exec mentions sets] in *.
  - now apply Hsame.
  - destruct (after cur) as [|c aft]; [discriminate|].
    destruct (atom_ok ic a c); [|discriminate].
    exists (Cursor (c :: before cur) aft (caps cur)). repeat split; [exact H|].
    intros n [E|E]; [discriminate|exact E].
  - apply IH1 in H as (c1 & H & F1 & D1).
    apply IH2 in H as (c2 & H & F2 & D2).
    exists c2. split; [exact H|]. split.
    + intros n E. apply orb_false_elim in E as [E1 E2].
      now rewrite (F2 n E2), (F1 n E1).
    + intros n [E|E].
      * apply orb_prop in E as [E|E]; [|apply D2; now left].
        apply D2. right. apply D1. now left.
      * apply D2. right. apply D1. now right.
  - destruct (exec ic r1 k cur) as [m1|] eqn:E1.
    + injection H as ->. apply IH1 in E1 as (c1 & H & F1 & D1).
      exists c1. split; [exact H|]. split.
      * intros n E. apply orb_false_elim in E as [E _]. now apply F1.
      * intros n [E|E]; [|apply D1; now right].
        apply andb_prop in E as [E _]. apply D1. now left.
    + apply IH2 in H as (c2 & H & F2 & D2).
      exists c2. split; [exact H|]. split.
      * intros n E. apply orb_false_elim in E as [_ E]. now apply F2.
      * intros n [E|E]; [|apply D2; now right].
        apply andb_prop in E as [_ E]. apply D2. now left.
  - apply greedy_calls in H as (b & a' & H).
    exists (Cursor b a' (caps cur)). repeat split; [exact H|].
    intros n [E|E]; [discriminate|exact E].
  - apply IH1 in H as (c1 & H & F1 & D1).
    exists (Cursor (before c1) (after c1) (set_cap g (span cur c1) (caps c1))).
    split; [exact H|]. cbn [caps]. split.
    + intros n E. apply orb_false_elim in E as [E1 E2].
      now rewrite (get_set_cap_other _ _ _ _ E1), (F1 n E2).
    + intros n E. destruct (Nat.eqb g n) eqn:Eg.
      * apply Nat.eqb_eq in Eg. subst g. now rewrite get_set_cap_same.
      * rewrite (get_set_cap_other _ _ _ _ Eg). apply D1.
        destruct E as [E|E]; [now left | now right].
  - destruct (before cur); [now apply Hsame|discriminate].
  - destruct (after cur) as [|c [|c' aft]]; [now apply Hsame| |discriminate].
    destruct (c =? ch_nl); [now apply Hsame|discriminate].
  - destruct (xorb _ _); [now apply Hsame|discriminate].
Qed.

(** A group on every path of a pattern has a text in every match: for it
    [m.group(n)] is not [None]. *)
Lemma match_sets_group (ic : bool) (r : regex) (c0 : cursor) (m : rmatch) (n : nat) :
  sets n r = true -> match_at ic r c0 = Some m -> group n m <> None.
Proof.
  unfold match_at. intros Hs H.
  apply exec_caps in H as (c1 & H & _ & D). injection H as <-.
  unfold group. cbn [m_end]. apply D. now left.
Qed.

Lemma search_sets_group (ic : bool) (r : regex) (s : str) (m : rmatch) (n : nat) :
  sets n r = true -> re_search ic r s = Some m -> group n m <> None.
Proof.
  unfold re_search. intros Hs. generalize (@nil char).
  induction s as [|c s IH]; intros bef H; cbn [search_from] in H.
  - destruct (match_at ic r (Cursor bef [] [])) eqn:E; [|discriminate].
    injection H as ->. now apply (match_sets_group ic r _ _ n Hs E).
  - destruct (match_at ic r (Cursor bef (c :: s) [])) eqn:E.
    + injection H as ->. now apply (match_sets_group ic r _ _ n Hs E).
    + now apply IH in H.
Qed.

(** The groups the program reads lie on every path of their patterns. *)
Lemma groups_read_are_set :
  sets 1 VERSAO_LINHA_RE = true /\ sets 1 DATE_DDMMYYYY = true
  /\ sets 1 RV_SECTION_RE = true /\ sets 2 RV_SECTION_RE = true
  /\ sets 1 MSG_RE = true /\ sets 1 REGRA_RE = true /\ sets 1 CAMPO_RE = true
  /\ sets 2 REJEICAO_RE = true.
Proof. run. Qed.

(** *** Substitution of a run pattern *)

Section SubSqueeze.
Variables (ic : bool) (r : regex) (repl : str).
Variables (cls : char -> bool) (fires : str -> bool).
Hypothesis run_pattern :
  forall bef aft,
    option_map snd (nonempty_match ic r bef aft) = run_match cls fires aft.

Lemma sub_loop_squeeze (aft : str) :
  forall bef,
    sub_loop ic r repl (run_len cls aft) bef aft = squeeze cls fires repl true aft
    /\ sub_loop ic r repl 0 bef aft = squeeze cls fires repl false aft.
Proof.
  induction aft as [|c s IH]; intros bef; [split; reflexivity|].
  assert (Hzero : sub_loop ic r repl 0 bef (c :: s)
                  = squeeze cls fires repl false (c :: s)).
  { cbn [sub_loop squeeze].
    pose proof (run_pattern bef (c :: s)) as E.
    unfold run_match in E. cbn [run_len] in E.
    destruct (cls c) eqn:Hc.
    - destruct (fires (c :: s)).
      + destruct (nonempty_match ic r bef (c :: s)) as [[m n]|];
          [|discriminate]. cbn in E. injection E as ->.
        now rewrite (proj1 (IH (c :: bef))).
      + destruct (nonempty_match ic r bef (c :: s)) as [[m n]|];
          [discriminate|].
        now rewrite (proj2 (IH (c :: bef))).
    - destruct (nonempty_match ic r bef (c :: s)) as [[m n]|];
        [discriminate|].
      now rewrite (proj2 (IH (c :: bef))). }
  split; [|exact Hzero].
  cbn [run_len]. destruct (cls c) eqn:Hc.
  - cbn [sub_loop squeeze]. rewrite Hc. apply IH.
  - rewrite Hzero. cbn [squeeze]. now rewrite Hc.
Qed.

Lemma re_sub_squeeze (s : str) :
  re_sub ic r repl s = squeeze cls fires repl false s.
Proof. apply sub_loop_squeeze. Qed.
End SubSqueeze.

Lemma replace_nbsp (s : str) :
  replace (py "\xa0") (py " ") s
  = map (fun c => if c =? ch_nbsp then ch_space else c) s.
Proof.
  unfold replace. change (py "\xa0") with [ch_nbsp]. change (py " ") with [ch_space].
  induction s as [|c s IH]; [reflexivity|].
  cbn [replace_loop starts_with List.length pred map app].
  rewrite IH, andb_true_r, N.eqb_sym. destruct (c =? ch_nbsp); reflexivity.
Qed.

(** [clean_space] without the matcher. *)
Lemma clean_space_squeeze (s : str) :
  clean_space s
  = strip (squeeze is_nl three_nl [ch_nl; ch_nl] false
            (squeeze isspace run_has_nl [ch_nl] false
               (squeeze is_blank always [ch_space] false
                  (map (fun c => if c =? ch_nbsp then ch_space else c) s)))).
Proof.
  unfold clean_space. destruct s as [|c s]; [reflexivity|].
  cbn [truthy negb].
  rewrite replace_nbsp.
  rewrite (re_sub_squeeze _ _ _ _ _ blanks_match).
  rewrite (re_sub_squeeze _ _ _ _ _ newline_match).
  rewrite (re_sub_squeeze _ _ _ _ _ newlines3_match).
  reflexivity.
Qed.

(** *** The form of the texts [clean_space] returns *)

Local Abbreviation sq_blank := (squeeze is_blank always [ch_space]).
Local Abbreviation sq_nl := (squeeze isspace run_has_nl [ch_nl]).
Local Abbreviation sq_nl3 := (squeeze is_nl three_nl [ch_nl; ch_nl]).
Local Abbreviation nonspace := (fun c : char => negb (isspace c)).

Lemma no_adj_cons (bad : char -> char -> bool) (a : char) (s : str) :
  no_adj bad (a :: s) = head_ok (fun b => negb (bad a b)) s && no_adj bad s.
Proof. destruct s; reflexivity. Qed.

Lemma head_ok_impl (p q : char -> bool) (s : str) :
  (forall c, p c = true -> q c = true) -> head_ok p s = true -> head_ok q s = true.
Proof. destruct s; simpl; auto. Qed.

Lemma head_ok_all (p : char -> bool) (s : str) :
  (forall c, p c = true) -> head_ok p s = true.
Proof. destruct s; simpl; auto. Qed.

Lemma no_adj_app (bad : char -> char -> bool) (a b : str) :
  no_adj bad (a ++ b) = true -> no_adj bad a = true /\ no_adj bad b = true.
Proof.
  induction a as [|x a IH]; intros H; [now split|].
  change ((x :: a) ++ b) with (x :: (a ++ b)) in H.
  rewrite no_adj_cons in H. apply andb_prop in H as [H1 H2].
  destruct (IH H2) as [Ha Hb]. split; [|exact Hb].
  rewrite no_adj_cons, Ha, andb_true_r.
  destruct a; [reflexivity|exact H1].
Qed.

Lemma squeeze_true_head (cls : char -> bool) (fires : str -> bool) (repl s : str) :
  head_ok (fun c => negb (cls c)) s = true ->
  squeeze cls fires repl true s = squeeze cls fires repl false s.
Proof.
  destruct s as [|c s]; [reflexivity|]. simpl. intros H.
  apply negb_true_iff in H. now rewrite H.
Qed.

Lemma squeeze_true_starts (cls : char -> bool) (fires : str -> bool) (repl s : str) :
  head_ok (fun c => negb (cls c)) (squeeze cls fires repl true s) = true.
Proof.
  induction s as [|c s IH]; [reflexivity|]. cbn [squeeze].
  destruct (cls c) eqn:Hc; [exact IH|]. simpl. now rewrite Hc.
Qed.

Lemma squeeze_in (cls : char -> bool) (fires : str -> bool) (repl s : str)
  (d : bool) (x : char) :
  In x (squeeze cls fires repl d s) -> In x s \/ In x repl.
Proof.
  revert d. induction s as [|c s IH]; intros d H; [destruct H|].
  cbn [squeeze] in H.
  assert (Hrec : forall d', In x (squeeze cls fires repl d' s) ->
                            In x (c :: s) \/ In x repl).
  { intros d' H'. destruct (IH d' H'); [left; now right | now right]. }
  assert (Hcopy : In x (c :: squeeze cls fires repl false s) ->
                  In x (c :: s) \/ In x repl).
  { intros [->|H']; [left; now left | now apply (Hrec false)]. }
  destruct (cls c).
  - destruct d; [now apply (Hrec true)|].
    destruct (fires (c :: s)); [|now apply Hcopy].
    apply in_app_or in H as [H|H]; [now right | now apply (Hrec true)].
  - now apply Hcopy.
Qed.

(** After [[ \t]+] is replaced by a space: no tab, no two spaces side by
    side. *)
Lemma sq_blank_in (s : str) (d : bool) (x : char) :
  In x (sq_blank d s) -> is_blank x = true -> x = ch_space.
Proof.
  revert d. induction s as [|c s IH]; intros d H Hx; [destruct H|].
  cbn [squeeze] in H. unfold always in H. destruct (is_blank c) eqn:Hc.
  - destruct d; [now apply (IH true)|].
    destruct H as [H|H]; [now symmetry | now apply (IH true)].
  - destruct H as [H|H]; [congruence | now apply (IH false)].
Qed.

Lemma sq_blank_no_adj (s : str) (d : bool) :
  no_adj two_spaces (sq_blank d s) = true.
Proof.
  revert d. induction s as [|c s IH]; intros d; [reflexivity|].
  cbn [squeeze]. unfold always. destruct (is_blank c) eqn:Hc.
  - destruct d; [apply IH|].
    cbn [app]. rewrite no_adj_cons, IH, andb_true_r.
    eapply head_ok_impl; [|apply squeeze_true_starts].
    intros x Hx. cbv beta in Hx. unfold two_spaces.
    destruct (x =? ch_space) eqn:E; [|now rewrite andb_false_r].
    apply N.eqb_eq in E. subst x. discriminate.
  - rewrite no_adj_cons, IH, andb_true_r. apply head_ok_all.
    intros x. unfold two_spaces.
    destruct (c =? ch_space) eqn:E; [|reflexivity].
    apply N.eqb_eq in E. subst c. discriminate.
Qed.

(** After [\s*\n\s*] is replaced by a newline: no newline beside
    whitespace; and two spaces side by side are not brought in. *)
Lemma run_has_nl_cons (c : char) (s : str) :
  run_has_nl (c :: s) = false -> isspace c = true ->
  (c =? ch_nl) = false /\ run_has_nl s = false.
Proof.
  cbn [run_has_nl]. intros H Hc. rewrite Hc in H. cbn [andb] in H.
  now apply orb_false_elim in H.
Qed.

Lemma nonspace_not_nl (c : char) : isspace c = false -> (c =? ch_nl) = false.
Proof.
  intros H. destruct (c =? ch_nl) eqn:E; [|reflexivity].
  apply nl_is_space in E. congruence.
Qed.

Lemma sq_nl_head (s : str) :
  run_has_nl s = false ->
  head_ok (fun c => negb (c =? ch_nl)) (sq_nl false s) = true.
Proof.
  destruct s as [|c s]; [reflexivity|]. intros H. cbn [squeeze].
  destruct (isspace c) eqn:Hc.
  - rewrite H. destruct (run_has_nl_cons _ _ H Hc) as [Hn _].
    simpl. now rewrite Hn.
  - simpl. now rewrite (nonspace_not_nl _ Hc).
Qed.

Lemma sq_nl_no_adj (s : str) (d : bool) :
  no_adj nl_beside_space (sq_nl d s) = true.
Proof.
  revert d. induction s as [|c s IH]; intros d; [reflexivity|].
  cbn [squeeze]. destruct (isspace c) eqn:Hc.
  - destruct d; [apply IH|].
    destruct (run_has_nl (c :: s)) eqn:Hf.
    + cbn [app]. rewrite no_adj_cons, IH, andb_true_r.
      eapply head_ok_impl; [|apply squeeze_true_starts].
      intros x Hx. cbv beta in Hx. apply negb_true_iff in Hx.
      unfold nl_beside_space. rewrite Hx, (nonspace_not_nl _ Hx).
      now rewrite andb_false_r.
    + destruct (run_has_nl_cons _ _ Hf Hc) as [Hn Hs].
      rewrite no_adj_cons, IH, andb_true_r.
      eapply head_ok_impl; [|apply (sq_nl_head _ Hs)].
      intros x Hx. cbv beta in Hx. apply negb_true_iff in Hx.
      unfold nl_beside_space. rewrite Hn, Hx. now rewrite andb_false_r.
  - rewrite no_adj_cons, IH, andb_true_r. apply head_ok_all.
    intros x. unfold nl_beside_space. now rewrite Hc, (nonspace_not_nl _ Hc).
Qed.

Lemma sq_nl_head_space (s : str) (d : bool) :
  head_ok (fun c => negb (c =? ch_space)) s = true ->
  head_ok (fun c => negb (c =? ch_space)) (sq_nl d s) = true.
Proof.
  destruct d.
  - intros _. eapply head_ok_impl; [|apply squeeze_true_starts].
    intros x Hx. cbv beta in Hx. apply negb_true_iff in Hx.
    destruct (x =? ch_space) eqn:E; [|reflexivity].
    apply N.eqb_eq in E. subst x. discriminate.
  - destruct s as [|c s]; [reflexivity|]. cbn [squeeze head_ok]. intros H.
    destruct (isspace c); [|exact H].
    destruct (run_has_nl (c :: s)); [reflexivity|exact H].
Qed.

Lemma two_spaces_head (a : char) (s : str) :
  head_ok (fun b => negb (two_spaces a b)) s = true ->
  (a =? ch_space) = true ->
  head_ok (fun c => negb (c =? ch_space)) s = true.
Proof.
  intros H Ha. eapply head_ok_impl; [|exact H].
  intros x. unfold two_spaces. now rewrite Ha.
Qed.

Lemma sq_nl_keeps_spaces (s : str) (d : bool) :
  no_adj two_spaces s = true -> no_adj two_spaces (sq_nl d s) = true.
Proof.
  revert d. induction s as [|c s IH]; intros d H; [reflexivity|].
  rewrite no_adj_cons in H. apply andb_prop in H as [Hh Ht].
  assert (Hcopy : no_adj two_spaces (c :: sq_nl false s) = true).
  { rewrite no_adj_cons, (IH false Ht), andb_true_r.
    destruct (c =? ch_space) eqn:E.
    - eapply head_ok_impl; [|apply (sq_nl_head_space s false)].
      + intros x Hx. unfold two_spaces. now rewrite E.
      + now apply (two_spaces_head c).
    - apply head_ok_all. intros x. unfold two_spaces. now rewrite E. }
  cbn [squeeze]. destruct (isspace c); [|exact Hcopy].
  destruct d; [now apply IH|].
  destruct (run_has_nl (c :: s)); [|exact Hcopy].
  cbn [app]. rewrite no_adj_cons, (IH true Ht), andb_true_r.
  apply head_ok_all. intros x. reflexivity.
Qed.

(** In such a text [\n{3,}] matches nowhere. *)
Lemma nl_run_short (s : str) :
  no_adj nl_beside_space s = true -> (run_len is_nl s <= 1)%nat.
Proof.
  destruct s as [|a [|b s]]; simpl; intros H.
  - lia.
  - destruct (is_nl a); lia.
  - unfold is_nl in *. destruct (a =? ch_nl) eqn:Ea; [|lia].
    destruct (b =? ch_nl) eqn:Eb; [|lia].
    apply andb_prop in H as [H _]. unfold nl_beside_space in H.
    rewrite Ea, (nl_is_space _ Eb) in H. discriminate.
Qed.

Lemma sq_nl3_id (s : str) :
  no_adj nl_beside_space s = true -> sq_nl3 false s = s.
Proof.
  induction s as [|c s IH]; intros H; [reflexivity|].
  pose proof (nl_run_short _ H) as Hr.
  rewrite no_adj_cons in H. apply andb_prop in H as [_ Ht].
  assert (Hf : three_nl (c :: s) = false).
  { unfold three_nl. apply Nat.leb_gt. lia. }
  cbn [squeeze]. rewrite Hf, (IH Ht). destruct (is_nl c); reflexivity.
Qed.

(** Fixed points of the three substitutions. *)
Lemma sq_blank_id (s : str) :
  ~ In ch_tab s -> no_adj two_spaces s = true -> sq_blank false s = s.
Proof.
  induction s as [|c s IH]; intros Ht H; [reflexivity|].
  rewrite no_adj_cons in H. apply andb_prop in H as [Hh Hs].
  assert (Ht' : ~ In ch_tab s) by (intros Hi; apply Ht; now right).
  cbn [squeeze]. unfold always at 1. destruct (is_blank c) eqn:Hc.
  - cbn [app]. rewrite squeeze_true_head, (IH Ht' Hs).
    + unfold is_blank in Hc. apply orb_prop in Hc as [Hc|Hc];
        apply N.eqb_eq in Hc; subst c; [reflexivity|].
      exfalso. apply Ht. now left.
    + destruct s as [|b s]; [reflexivity|]. cbn [head_ok] in *.
      unfold is_blank. apply negb_true_iff, orb_false_intro.
      * unfold is_blank in Hc. apply orb_prop in Hc as [Hc|Hc].
        -- unfold two_spaces in Hh. rewrite Hc in Hh.
           now apply negb_true_iff in Hh.
        -- apply N.eqb_eq in Hc. subst c. exfalso. apply Ht. now left.
      * apply N.eqb_neq. intros ->. apply Ht'. now left.
  - now rewrite (IH Ht' Hs).
Qed.

Lemma run_has_nl_false (s : str) (c : char) :
  isspace c = true -> (c =? ch_nl) = false ->
  no_adj nl_beside_space (c :: s) = true -> run_has_nl (c :: s) = false.
Proof.
  revert c. induction s as [|b s IH]; intros c Hc Hn H.
  - cbn [run_has_nl]. now rewrite Hn, andb_false_r.
  - rewrite no_adj_cons in H. apply andb_prop in H as [Hh Hs].
    cbn [head_ok] in Hh. unfold nl_beside_space in Hh.
    rewrite Hc, Hn in Hh. cbn [andb orb] in Hh. apply negb_true_iff in Hh.
    change (run_has_nl (c :: b :: s))
      with (isspace c && ((c =? ch_nl) || run_has_nl (b :: s))).
    rewrite Hn. cbn [orb].
    destruct (isspace b) eqn:Hb.
    + rewrite (IH b Hb Hh Hs). apply andb_false_r.
    + cbn [run_has_nl]. rewrite Hb. apply andb_false_r.
Qed.

Lemma sq_nl_id (s : str) :
  no_adj nl_beside_space s = true -> sq_nl false s = s.
Proof.
  induction s as [|c s IH]; intros H; [reflexivity|].
  pose proof H as Hall.
  rewrite no_adj_cons in H. apply andb_prop in H as [Hh Hs].
  cbn [squeeze]. rewrite (IH Hs). destruct (isspace c) eqn:Hc; [|reflexivity].
  destruct (c =? ch_nl) eqn:Hn.
  - assert (Hf : run_has_nl (c :: s) = true).
    { cbn [run_has_nl]. now rewrite Hc, Hn. }
    rewrite Hf. cbn [app]. rewrite squeeze_true_head, (IH Hs).
    + apply N.eqb_eq in Hn. now subst c.
    + eapply head_ok_impl; [|exact Hh]. intros x. unfold nl_beside_space.
      rewrite Hn. cbn [andb]. intros Hx. apply negb_true_iff in Hx.
      now apply orb_false_elim in Hx as [-> _].
  - now rewrite (run_has_nl_false s c Hc Hn Hall).
Qed.

(** [strip] *)
Lemma lstrip_suffix (s : str) : exists w, s = w ++ lstrip s.
Proof.
  induction s as [|c s [w IH]]; [now exists []|]. simpl.
  destruct (isspace c); [|now exists []].
  exists (c :: w). simpl. now rewrite <- IH.
Qed.

Lemma lstrip_head (s : str) : head_ok nonspace (lstrip s) = true.
Proof.
  induction s as [|c s IH]; [reflexivity|]. simpl.
  destruct (isspace c) eqn:Hc; [exact IH|]. simpl. now rewrite Hc.
Qed.

Lemma lstrip_id (s : str) : head_ok nonspace s = true -> lstrip s = s.
Proof.
  destruct s as [|c s]; [reflexivity|]. simpl. intros H.
  apply negb_true_iff in H. now rewrite H.
Qed.

Lemma strip_inside (s : str) : exists w1 w2, s = w1 ++ strip s ++ w2.
Proof.
  unfold strip, rstrip.
  destruct (lstrip_suffix (rev s)) as [w2 E2].
  destruct (lstrip_suffix (rev (lstrip (rev s)))) as [w1 E1].
  exists w1, (rev w2). rewrite app_assoc, <- E1, <- rev_app_distr, <- E2.
  now rewrite rev_involutive.
Qed.

Lemma strip_head (s : str) : head_ok nonspace (strip s) = true.
Proof. apply lstrip_head. Qed.

Lemma strip_last (s : str) : head_ok nonspace (rev (strip s)) = true.
Proof.
  unfold strip, rstrip.
  destruct (lstrip_suffix (rev (lstrip (rev s)))) as [w E].
  pose proof (lstrip_head (rev s)) as H.
  rewrite <- (rev_involutive (lstrip (rev s))), E, rev_app_distr in H.
  destruct (rev (lstrip (rev (lstrip (rev s))))) as [|x t] eqn:Er; [reflexivity|].
  exact H.
Qed.

Lemma strip_id (s : str) :
  head_ok nonspace s = true -> head_ok nonspace (rev s) = true -> strip s = s.
Proof.
  intros H1 H2. unfold strip, rstrip.
  rewrite (lstrip_id _ H2), rev_involutive. now apply lstrip_id.
Qed.

Lemma map_nbsp_in (s : str) :
  ~ In ch_nbsp (map (fun c => if c =? ch_nbsp then ch_space else c) s).
Proof.
  intros H. apply in_map_iff in H. destruct H as [y [E _]].
  destruct (y =? ch_nbsp) eqn:Ey; [discriminate|].
  apply N.eqb_neq in Ey. congruence.
Qed.

Lemma map_nbsp_id (s : str) :
  ~ In ch_nbsp s -> map (fun c => if c =? ch_nbsp then ch_space else c) s = s.
Proof.
  induction s as [|c s IH]; intros H; [reflexivity|]. simpl.
  rewrite IH by (intros Hi; apply H; now right).
  destruct (N.eqb_spec c ch_nbsp) as [->|]; [|reflexivity].
  exfalso. apply H. now left.
Qed.

(** Every text [clean_space] returns has the normal form. *)
Lemma clean_space_normal (s : str) : normal (clean_space s).
Proof.
  rewrite clean_space_squeeze.
  set (s1 := map (fun c => if c =? ch_nbsp then ch_space else c) s).
  set (s2 := sq_blank false s1).
  rewrite (sq_nl3_id _ (sq_nl_no_adj s2 false)).
  set (s3 := sq_nl false s2).
  destruct (strip_inside s3) as [w1 [w2 E]].
  assert (Hin : forall x, In x (strip s3) -> In x s3).
  { intros x Hx. rewrite E. apply in_or_app. right. apply in_or_app. now left. }
  assert (Hadj : forall bad, no_adj bad s3 = true -> no_adj bad (strip s3) = true).
  { intros bad Hb. rewrite E in Hb.
    apply no_adj_app in Hb as [_ Hb]. now apply no_adj_app in Hb as [Hb _]. }
  unfold normal. repeat split.
  - intros H. apply Hin, squeeze_in in H as [H|[H|[]]]; [|discriminate].
    apply squeeze_in in H as [H|[H|[]]]; [|discriminate].
    now apply map_nbsp_in in H.
  - intros H. apply Hin, squeeze_in in H as [H|[H|[]]]; [|discriminate].
    apply sq_blank_in in H; [discriminate|reflexivity].
  - apply Hadj, sq_nl_keeps_spaces, sq_blank_no_adj.
  - apply Hadj, sq_nl_no_adj.
  - apply strip_head.
  - apply strip_last.
Qed.

(** A text in normal form is left as it is. *)
Lemma clean_space_fixed (s : str) : normal s -> clean_space s = s.
Proof.
  intros (Hn & Ht & Hs & Hl & Hh & He).
  rewrite clean_space_squeeze, (map_nbsp_id _ Hn), (sq_blank_id _ Ht Hs),
    (sq_nl_id _ Hl), (sq_nl3_id _ Hl).
  now apply strip_id.
Qed.

Lemma clean_space_twice (s : str) : clean_space (clean_space s) = clean_space s.
Proof. apply clean_space_fixed, clean_space_normal. Qed.

(** C8. For every string s, clean_space(clean_space(s)) equals
    clean_space(s). *)
Theorem C8_clean_space_idempotent (s : str) :
  clean_space (clean_space s) = clean_space s.
Proof. exact (clean_space_twice s). Qed.

Lemma no_blank_line (s : str) :
  no_adj nl_beside_space s = true -> contains [ch_nl; ch_nl] s = false.
Proof.
  induction s as [|a s IH]; intros H; [reflexivity|].
  rewrite no_adj_cons in H. apply andb_prop in H as [Hh Hs].
  cbn [contains]. rewrite (IH Hs), orb_false_r.
  destruct s as [|b s]; cbn [starts_with head_ok] in *.
  - apply andb_false_r.
  - rewrite andb_true_r. unfold nl_beside_space in Hh.
    rewrite (N.eqb_sym ch_nl a), (N.eqb_sym ch_nl b).
    destruct (a =? ch_nl) eqn:Ea; [|reflexivity].
    destruct (b =? ch_nl) eqn:Eb; [|reflexivity].
    rewrite (nl_is_space _ Eb) in Hh. discriminate.
Qed.

(** C6, on the code.  [\s*\n\s*] takes every run of whitespace that holds
    a newline, the blank lines with it, so the substitution of [\n{3,}] that
    follows finds nothing: four newlines between two words come out as one,
    and no text returned holds a blank line. *)
Theorem C6_blank_lines_dropped :
  clean_space (py "a\n\n\n\nb") = py "a\nb"
  /\ clean_space (py "a\n\nb") = py "a\nb"
  /\ forall s, contains (py "\n\n") (clean_space s) = false.
Proof.
  split; [run|]. split; [run|].
  intros s. apply no_blank_line. apply clean_space_normal.
Qed.

(** *** Header rows *)

Lemma starts_with_sep (n a b : str) (c : char) :
  ~ In c n -> n <> [] -> starts_with n (a ++ c :: b) = starts_with n a.
Proof.
  revert a. induction n as [|x n IH]; intros a Hc Hn; [congruence|].
  destruct a as [|y a]; simpl.
  - destruct (N.eqb_spec x c) as [->|]; [exfalso; apply Hc; now left | reflexivity].
  - destruct n as [|x' n'].
    + reflexivity.
    + rewrite IH; [reflexivity| |discriminate].
      intros H. apply Hc. now right.
Qed.

Lemma contains_nil (n : str) : n <> [] -> contains n [] = false.
Proof. destruct n; [congruence|reflexivity]. Qed.

Lemma contains_sep (n a b : str) (c : char) :
  ~ In c n -> n <> [] ->
  contains n (a ++ c :: b) = contains n a || contains n b.
Proof.
  intros Hc Hn. induction a as [|y a IH].
  - change ([] ++ c :: b) with (c :: b).
    rewrite (contains_nil n Hn). cbn [contains orb].
    change (c :: b) with ([] ++ c :: b) at 1.
    rewrite starts_with_sep by assumption.
    destruct n; [congruence|reflexivity].
  - change ((y :: a) ++ c :: b) with (y :: (a ++ c :: b)).
    cbn [contains]. rewrite IH.
    change (y :: (a ++ c :: b)) with ((y :: a) ++ c :: b).
    rewrite starts_with_sep by assumption.
    now rewrite orb_assoc.
Qed.

(** A label without space and bar lies in the joined row exactly when it
    lies in one of the cells. *)
Lemma contains_join_bar (n : str) (parts : list str) :
  n <> [] -> ~ In ch_space n -> ~ In 124 n ->
  contains n (join (py " | ") parts) = existsb (contains n) parts.
Proof.
  intros Hn Hs Hb. induction parts as [|p parts IH].
  - simpl. now apply contains_nil.
  - destruct parts as [|q parts].
    + simpl. now rewrite orb_false_r.
    + change (join (py " | ") (p :: q :: parts))
        with (p ++ ch_space :: ([] ++ 124 :: ([] ++ ch_space :: join (py " | ") (q :: parts)))).
      rewrite !contains_sep by assumption.
      rewrite IH. pose proof (contains_nil n Hn) as E.
      unfold str, char in *. rewrite !E. reflexivity.
Qed.

Lemma existsb_over_map {A B : Type} (f : B -> bool) (g : A -> B) (l : list A) :
  existsb f (map g l) = existsb (fun x => f (g x)) l.
Proof. induction l as [|x l IH]; simpl; [reflexivity | now rewrite IH]. Qed.

Lemma guess_by_labels (r : row) :
  _guess_has_rv_header r = header_by_labels r.
Proof.
  unfold _guess_has_rv_header, header_by_labels, has_label.
  rewrite !contains_join_bar by (vm_compute; intuition discriminate).
  now rewrite !existsb_over_map.
Qed.

(** C3, as amended.  A row is taken as a header exactly when, after
    lowercasing, some cell contains "aplic" and some cell contains "msg", or
    some cell contains "descri" and some cell contains "regra"; the row
    Campo, Regra, Aplic., Msg, Descrição is a header, and so is the row
    Aplic., Msg, Cstat. *)
Theorem C3_header_rows :
  (forall r : row, _guess_has_rv_header r = header_by_labels r)
  /\ _guess_has_rv_header ex_header = true
  /\ _guess_has_rv_header ex_header_msg = true.
Proof.
  split; [exact guess_by_labels|]. run.
Qed.

(** C3, as stated, fails: the row Aplic., Mensagem, Cstat is not taken as
    a header, since no cell of it contains "msg". *)
Lemma C3_cstat_row_rejected : _guess_has_rv_header ex_header_cstat <> true.
Proof. vm_compute. discriminate. Qed.

(** *** The table path *)

Lemma bind_ok {A B : Type} (x : result A) (f : A -> result B) (b : B) :
  bind x f = Ok b -> exists a, x = Ok a /\ f a = Ok b.
Proof. destruct x as [a|e]; simpl; intros H; [now exists a|discriminate]. Qed.

Section TableLoops.
(** [P] holds of every dictionary a row of the table can give. *)
Variable P : RV -> Prop.

Lemma rows_loop_news (cols : columns) (rows : list row) (out out' : list RV) :
  (forall r d, In r rows -> row_dict cols r = Ok d -> keep_row d = true -> P d) ->
  rows_loop cols rows out = Ok out' ->
  exists news, out' = out ++ news /\ Forall P news.
Proof.
  revert out. induction rows as [|r rows IH]; intros out HP H.
  - injection H as <-. exists []. now rewrite app_nil_r.
  - cbn [rows_loop] in H. apply bind_ok in H as [d [Hd H]].
    apply IH in H; [|intros r' d' Hr; apply HP; now right].
    destruct H as [news [-> Hn]].
    destruct (keep_row d) eqn:Hk; [|now exists news].
    exists (d :: news). rewrite <- app_assoc. split; [reflexivity|].
    constructor; [|exact Hn]. apply (HP r d); [now left|exact Hd|exact Hk].
Qed.

Hypothesis every_row :
  forall header r d,
    row_dict (header_columns header) r = Ok d -> keep_row d = true -> P d.

Lemma table_step_news (tbl : table) (out out' : list RV) :
  table_step tbl out = Ok out' ->
  exists news, out' = out ++ news /\ Forall P news.
Proof.
  unfold table_step. intros H.
  assert (Hnone : Ok out = Ok out' -> exists news, out' = out ++ news /\ Forall P news).
  { intros E. injection E as <-. exists []. now rewrite app_nil_r. }
  destruct (List.length tbl <? 2)%nat; [now apply Hnone|].
  destruct (find_header tbl) as [header|]; [|now apply Hnone].
  destruct (negb (truthy_list header)); [now apply Hnone|].
  apply rows_loop_news in H; [exact H|].
  intros r d _. apply every_row.
Qed.

Lemma tables_loop_news (tables : list table) (out out' : list RV) :
  tables_loop tables out = Ok out' ->
  exists news, out' = out ++ news /\ Forall P news.
Proof.
  revert out. induction tables as [|tbl tables IH]; intros out H.
  - injection H as <-. exists []. now rewrite app_nil_r.
  - cbn [tables_loop] in H. apply bind_ok in H as [o [Ho H]].
    apply table_step_news in Ho as [n1 [-> H1]].
    apply IH in H as [n2 [-> H2]].
    exists (n1 ++ n2). rewrite app_assoc. split; [reflexivity|].
    apply Forall_app. now split.
Qed.

Lemma pages_loop_news (pages : list page) (out out' : list RV) :
  pages_loop pages out = Ok out' ->
  exists news, out' = out ++ news /\ Forall P news.
Proof.
  revert out. induction pages as [|pg pages IH]; intros out H.
  - injection H as <-. exists []. now rewrite app_nil_r.
  - cbn [pages_loop] in H. apply bind_ok in H as [o [Ho H]].
    apply tables_loop_news in Ho as [n1 [-> H1]].
    apply IH in H as [n2 [-> H2]].
    exists (n1 ++ n2). rewrite app_assoc. split; [reflexivity|].
    apply Forall_app. now split.
Qed.

Lemma parse_rv_tables_all (f : pdf_file) (out : list RV) :
  _parse_rv_tables f = Ok out -> Forall P out.
Proof.
  unfold _parse_rv_tables. destruct (plumber_pages f); [|discriminate].
  intros H. apply pages_loop_news in H as [news [-> H]]. exact H.
Qed.
End TableLoops.

Lemma cell_at_clean (cells : list str) (idx : option nat) (v : str) :
  (forall c, In c cells -> clean_space c = c) ->
  cell_at cells idx = Ok v -> clean_space v = v.
Proof.
  intros Hc. unfold cell_at. destruct idx as [i|].
  - destruct (nth_error cells i) as [w|] eqn:E; [|discriminate].
    intros H. injection H as <-. apply Hc. eapply nth_error_In, E.
  - intros H. injection H as <-. reflexivity.
Qed.

Lemma row_cells_clean (r : row) (c : str) :
  In c (map (fun c => clean_space (or_empty c)) r ++ repeat [] 6) ->
  clean_space c = c.
Proof.
  intros H. apply in_app_or in H as [H|H].
  - apply in_map_iff in H. destruct H as [x [<- _]]. apply clean_space_twice.
  - apply repeat_spec in H. now subst c.
Qed.

Lemma existsb_truthy (l : list str) :
  existsb truthy l = true -> exists v, In v l /\ v <> [].
Proof.
  intros H. apply existsb_exists in H as [v [Hi Hv]].
  exists v. split; [exact Hi|]. now destruct v.
Qed.

Lemma kept_row_content (cols : columns) (r : row) (d : RV) :
  row_dict cols r = Ok d -> keep_row d = true -> min_content d.
Proof.
  unfold row_dict. intros H Hk.
  apply bind_ok in H as [v1 [_ H]]. apply bind_ok in H as [v2 [_ H]].
  apply bind_ok in H as [v3 [_ H]]. apply bind_ok in H as [v4 [_ H]].
  apply bind_ok in H as [v5 [H5 H]]. injection H as <-.
  apply cell_at_clean in H5; [|apply row_cells_clean].
  unfold keep_row in Hk. apply andb_prop in Hk as [Ha Hl].
  apply Nat.leb_le in Hl. cbn [rv_descricao] in *.
  repeat split.
  - now apply existsb_truthy.
  - exact Hl.
  - now rewrite H5 in Hl.
Qed.

(** C9. Every record the table parser yields has a field that is not
    empty and a description of length 3 or more, also after
    normalisation; a table with fewer than 2 rows adds no record. *)
Theorem C9_min_content (f : pdf_file) (out : list RV) (tbl : table)
  (out0 : list RV) :
  _parse_rv_tables f = Ok out ->
  (List.length tbl < 2)%nat ->
  Forall min_content out /\ table_step tbl out0 = Ok out0.
Proof.
  intros H Hl. split.
  - apply (parse_rv_tables_all min_content) with (f := f); [|exact H].
    intros header r d. apply kept_row_content.
  - unfold table_step. apply Nat.ltb_lt in Hl. now rewrite Hl.
Qed.

Lemma C9_min_content_witness :
  _parse_rv_tables ex_pdf = Ok [ex_rv]
  /\ (List.length [ex_header] < 2)%nat
  /\ Forall min_content [ex_rv] /\ table_step [ex_header] [] = Ok [].
Proof.
  assert (H1 : _parse_rv_tables ex_pdf = Ok [ex_rv]) by (vm_compute; reflexivity).
  assert (H2 : (List.length [ex_header] < 2)%nat) by (simpl; lia).
  split; [exact H1|]. split; [exact H2|].
  exact (C9_min_content ex_pdf [ex_rv] [ex_header] [] H1 H2).
Defined.

(** *** The rows of a table *)

(** C4, on the code.  The header is looked for in the first three rows, but
    the rows read as data are all rows after the first one: with the header
    in the second row, the header row itself becomes a record. *)
Theorem C4_header_row_read_as_data :
  find_header [ex_title_row; ex_header; ex_data]
  = Some [py "Campo"; py "Regra"; py "Aplic."; py "Msg"; py "Descrição"]
  /\ table_step [ex_title_row; ex_header; ex_data] [] = Ok [ex_rv_header; ex_rv]
  /\ table_step [ex_header; ex_data] [] = Ok [ex_rv].
Proof. run. Qed.

(** *** The columns of a header *)

Lemma index_where_ext {A : Type} (f g : A -> bool) (l : list A) :
  (forall x, In x l -> f x = g x) -> index_where f l = index_where g l.
Proof.
  induction l as [|x l IH]; intros H; [reflexivity|]. simpl.
  rewrite (H x) by now left.
  rewrite IH by (intros y Hy; apply H; now right). reflexivity.
Qed.

Lemma index_where_some {A : Type} (f : A -> bool) (l : list A) :
  (exists x, In x l /\ f x = true) -> exists i, index_where f l = Some i.
Proof.
  induction l as [|x l IH]; intros [y [Hy Hf]]; [destruct Hy|]. simpl.
  destruct (f x) eqn:E; [now exists O|].
  destruct Hy as [->|Hy]; [congruence|].
  destruct IH as [i Hi]; [now exists y|]. rewrite Hi. now exists (S i).
Qed.

Lemma id_alias_columns (header : list str) :
  (forall h, In h header ->
             contains (py "regra") (lower h) = false
             /\ contains (py "rv") (lower h) = false
             /\ contains (py "campo") (lower h) = false) ->
  idx_regra (header_columns header) = index_where has_id header
  /\ idx_campo (header_columns header) = index_where has_id header.
Proof.
  intros H. unfold header_columns, find_idx. cbn [idx_regra idx_campo].
  change (map lower [py "regra"; py "rv"; py "id"])
    with [py "regra"; py "rv"; py "id"].
  change (map lower [py "campo"; py "id"]) with [py "campo"; py "id"].
  split; apply index_where_ext; intros h Hh; cbn [existsb];
    destruct (H h Hh) as (H1 & H2 & H3); unfold has_id.
  - now rewrite H1, H2, orb_false_r.
  - now rewrite H3, orb_false_r.
Qed.

Lemma row_dict_alias (cols : columns) (r : row) (d : RV) :
  idx_campo cols = idx_regra cols ->
  row_dict cols r = Ok d -> rv_campo d = rv_regra d.
Proof.
  unfold row_dict. intros E H. rewrite E in H.
  apply bind_ok in H as [v1 [H1 H]]. apply bind_ok in H as [v2 [H2 H]].
  apply bind_ok in H as [v3 [_ H]]. apply bind_ok in H as [v4 [_ H]].
  apply bind_ok in H as [v5 [_ H]]. injection H as <-.
  cbn [rv_campo rv_regra]. congruence.
Qed.

(** C10. When no cell of the header found for a table (its cells as the
    parser normalises them) contains, lowercased, "regra", "rv" or "campo",
    and some cell contains "id": the rule column and the field column are
    both the first cell that contains "id", and every record the table adds
    has its field code equal to its rule id. *)
Theorem C10_id_alias (tbl : table) (header : list str) (out0 out : list RV) :
  find_header tbl = Some header ->
  (forall h, In h header ->
             contains (py "regra") (lower h) = false
             /\ contains (py "rv") (lower h) = false
             /\ contains (py "campo") (lower h) = false) ->
  (exists h, In h header /\ contains (py "id") (lower h) = true) ->
  table_step tbl out0 = Ok out ->
  (exists i, index_where (fun h => contains (py "id") (lower h)) header = Some i
             /\ idx_regra (header_columns header) = Some i
             /\ idx_campo (header_columns header) = Some i)
  /\ exists news, out = out0 ++ news
                  /\ Forall (fun d => rv_campo d = rv_regra d) news.
Proof.
  intros Hh Hno Hid Hstep.
  destruct (id_alias_columns header Hno) as [Er Ec].
  destruct (index_where_some has_id header Hid) as [i Hi].
  split.
  - exists i. rewrite Er, Ec. repeat split; exact Hi.
  - unfold table_step in Hstep. rewrite Hh in Hstep.
    assert (Hnone : Ok out0 = Ok out ->
                    exists news, out = out0 ++ news
                                 /\ Forall (fun d => rv_campo d = rv_regra d) news).
    { intros E. injection E as <-. exists []. now rewrite app_nil_r. }
    destruct (List.length tbl <? 2)%nat; [now apply Hnone|].
    destruct (negb (truthy_list header)); [now apply Hnone|].
    apply (rows_loop_news (fun d => rv_campo d = rv_regra d)) in Hstep;
      [exact Hstep|].
    intros r d _ Hd _. apply (row_dict_alias (header_columns header) r);
      [|exact Hd].
    now rewrite Er, Ec.
Qed.

Lemma C10_id_alias_witness :
  (exists i, index_where (fun h => contains (py "id") (lower h)) ex_id_cells = Some i
             /\ idx_regra (header_columns ex_id_cells) = Some i
             /\ idx_campo (header_columns ex_id_cells) = Some i)
  /\ exists news, [ex_id_rv] = [] ++ news
                  /\ Forall (fun d => rv_campo d = rv_regra d) news.
Proof.
  apply (C10_id_alias [ex_id_header; ex_id_data] ex_id_cells [] [ex_id_rv]).
  - vm_compute. reflexivity.
  - intros h Hh. simpl in Hh.
    destruct Hh as [<-|[<-|[<-|[<-|[]]]]]; vm_compute; auto.
  - exists (py "ID"). split; [now left | vm_compute; reflexivity].
  - vm_compute. reflexivity.
Defined.

(** *** The text path yields nothing *)

Lemma span_one (b a aft : str) (c : char) (c0 c1 : list (nat * str)) :
  span (Cursor b a c0) (Cursor (c :: b) aft c1) = [c].
Proof.
  unfold span. cbn [before List.length].
  replace (S (List.length b) - List.length b)%nat with 1%nat by lia.
  reflexivity.
Qed.

Lemma exec_group_of_two {R : Type} (ic : bool) (g : nat) (a1 a2 : atom)
  (k : cursor -> option R) (cur : cursor) (m : R) :
  exec ic (Grp g (Alt (One a1) (One a2))) k cur = Some m ->
  exists c aft,
    (atom_ok ic a1 c = true \/ atom_ok ic a2 c = true)
    /\ k (Cursor (c :: before cur) aft (set_cap g [c] (caps cur))) = Some m.
Proof.
  destruct cur as [b a c0]. cbn [exec before after caps].
  destruct a as [|c aft]; [discriminate|].
  rewrite !span_one. intros H. exists c, aft.
  destruct (atom_ok ic a1 c).
  - destruct (k _) eqn:E in H.
    + injection H as ->. split; [now left|exact E].
    + destruct (atom_ok ic a2 c); discriminate.
  - destruct (atom_ok ic a2 c); [|discriminate]. split; [now right|exact H].
Qed.

Lemma lower_is_c_cedilla (c : char) :
  lower_char c = 231 -> c = 231 \/ c = 199.
Proof.
  unfold lower_char. destruct (is_upper c); intros H; [right|left]; lia.
Qed.

Lemma lower_is_c (c : char) : lower_char c = 99 -> c = 99 \/ c = 67.
Proof.
  unfold lower_char. destruct (is_upper c); intros H; [right|left]; lia.
Qed.

Ltac peel H :=
  match type of H with
  | exec ?ic (Cat ?a ?b) ?k ?cur = Some ?m =>
    apply (exec_caps ic a (exec ic b k)) in H;
    destruct H as (? & H & _ & _)
  end.

(** In a match of the section header, group 1 is one letter: ç or c, in
    either case. *)
Lemma rv_section_group1 (c0 : cursor) (m : rmatch) :
  match_at re_I RV_SECTION_RE c0 = Some m ->
  group_text 1 m = [231] \/ group_text 1 m = [199]
  \/ group_text 1 m = [99] \/ group_text 1 m = [67].
Proof.
  unfold match_at, RV_SECTION_RE. intros H. do 9 peel H.
  change (lit "ç") with (One (Chr 231)) in H.
  change (lit "c") with (One (Chr 99)) in H.
  match type of H with
  | exec ?ic (Cat ?a ?b) ?k ?cur = Some ?m =>
    change (exec ic a (exec ic b k) cur = Some m) in H
  end.
  apply exec_group_of_two in H as (c & aft & Hc & H).
  apply exec_caps in H as (c1 & H & F & _). injection H as <-.
  assert (E : group_text 1 (RMatch c0 c1) = [c]).
  { unfold group_text, group. cbn [m_end].
    rewrite (F 1%nat) by reflexivity. cbn [caps].
    now rewrite get_set_cap_same. }
  rewrite E. unfold atom_ok, re_I in Hc.
  destruct Hc as [Hc|Hc]; apply N.eqb_eq in Hc.
  - destruct (lower_is_c_cedilla c Hc) as [->| ->]; auto.
  - destruct (lower_is_c c Hc) as [->| ->]; auto.
Qed.

Lemma nonempty_match_at (ic : bool) (r : regex) (bef aft : str)
  (m : rmatch) (n : nat) :
  nonempty_match ic r bef aft = Some (m, n) ->
  match_at ic r (Cursor bef aft []) = Some m.
Proof.
  unfold nonempty_match. destruct (match_at ic r (Cursor bef aft [])); [|discriminate].
  destruct (match_len r0); [discriminate|]. now intros [= -> _].
Qed.

(** The list [sec] of [_parse_rv_text]: one element, or group 1 of a match
    of the header in second place. *)
Lemma rv_section_split (aft piece bef : str) :
  let sec := split_loop re_I RV_SECTION_RE (Some 1%nat) 0 piece bef aft in
  (List.length sec < 2)%nat
  \/ exists c0 m, match_at re_I RV_SECTION_RE c0 = Some m
                  /\ nth 1 sec [] = group_text 1 m.
Proof.
  revert piece bef. induction aft as [|c s IH]; intros piece bef.
  - left. simpl. lia.
  - cbn [split_loop].
    destruct (nonempty_match re_I RV_SECTION_RE bef (c :: s)) as [[m n]|] eqn:E.
    + right. exists (Cursor bef (c :: s) []), m.
      split; [now apply nonempty_match_at in E|].
      unfold groups_of. change (ngroups RV_SECTION_RE) with 2%nat. reflexivity.
    + apply IH.
Qed.

(** [_parse_rv_text] returns the empty list on every text. *)
Lemma parse_rv_text_empty (text : str) : _parse_rv_text text = [].
Proof.
  unfold _parse_rv_text. destruct (negb (truthy text)); [reflexivity|].
  unfold re_split. cbv beta iota.
  destruct (rv_section_split text [] []) as [H|(c0 & m & Hm & E)].
  - apply Nat.ltb_lt in H. now rewrite H.
  - destruct (_ <? 2)%nat; [reflexivity|]. rewrite E.
    destruct (rv_section_group1 c0 m Hm) as [->|[->|[->| ->]]];
      vm_compute; reflexivity.
Qed.

(** *** The text path *)

(** C1, on the code.  The pattern of the section header is anchored at the
    start of the text, and the body taken from the split is its first group
    (the letter matched by (ç|c)), not the text after the header: a header
    on a later line is not found, a header at the start gives no record,
    and the function returns the empty list on every text. *)
Theorem C1_section_not_located :
  re_split re_I RV_SECTION_RE ex_text_section_later 1 = [ex_text_section_later]
  /\ _parse_rv_text ex_text_section_later = []
  /\ re_split re_I RV_SECTION_RE ex_text_section 1
     = [[]; py "ç"; py "ão"; ex_paragraph]
  /\ _parse_rv_text ex_text_section = []
  /\ forall text, _parse_rv_text text = [].
Proof. conjs; [run | run | run | run | exact parse_rv_text_empty]. Qed.

(** C5, on the code.  A paragraph that starts with the token Obrig. followed
    by a space gets no applicability: the pattern asks for a word boundary
    after the full stop.  Through [_parse_rv_text] the paragraph is not
    even reached. *)
Theorem C5_obrig_token_missed :
  contains (py "Obrig.") ex_paragraph = true
  /\ rv_paragraph ex_paragraph
     = Some (mkRV [] [] [] (py "656") (py "Valor inválido"))
  /\ rv_paragraph (py "Obrig.x 656 Rejeição: Valor inválido")
     = Some (mkRV [] [] (py "Obrig.") (py "656") (py "Valor inválido"))
  /\ _parse_rv_text ex_text_section = [].
Proof. run. Qed.

(** *** The version and schedule scan *)

Lemma candidatas_loop_labels (lines : list str) (acc : list str) :
  candidatas_loop lines acc = acc ++ version_labels lines.
Proof.
  revert acc. induction lines as [|ln lines IH]; intros acc; simpl.
  - now rewrite app_nil_r.
  - rewrite IH. destruct (re_match re_I VERSAO_LINHA_RE (strip ln)).
    + now rewrite <- app_assoc.
    + reflexivity.
Qed.

Lemma last_is_last_of {A : Type} (l : list A) (d : A) :
  l <> [] -> last_of l = Some (last l d).
Proof.
  intros Hl. destruct (exists_last Hl) as [l' [x ->]].
  unfold last_of. rewrite rev_app_distr, last_last. reflexivity.
Qed.

Lemma nth_last_of {A : Type} (l : list A) (d : A) :
  (1 <= List.length l)%nat -> last_of l = Some (nth (List.length l - 1) l d).
Proof.
  intros Hl. unfold last_of.
  pose proof (rev_nth l d (n := 0)) as E. rewrite <- E by lia.
  pose proof (length_rev l) as Hr.
  destruct (rev l); simpl in *; [lia | reflexivity].
Qed.

Lemma nth_before_last_of {A : Type} (l : list A) (d : A) :
  (2 <= List.length l)%nat ->
  before_last_of l = Some (nth (List.length l - 2) l d).
Proof.
  intros Hl. unfold before_last_of.
  pose proof (rev_nth l d (n := 1)) as E. rewrite <- E by lia.
  pose proof (length_rev l) as Hr.
  destruct (rev l) as [|x [|y r]]; simpl in *; try lia. reflexivity.
Qed.

Lemma scan_versao_spec (text : str) : scan_versao text = spec_version text.
Proof.
  unfold scan_versao, spec_version.
  destruct (re_search re_I CONTROL_VER_RE text) as [m|]; [|reflexivity].
  rewrite candidatas_loop_labels. cbn [app].
  destruct (version_labels _) as [|x l] eqn:E; [reflexivity|].
  cbn [truthy_list]. symmetry. apply last_is_last_of. discriminate.
Qed.

Lemma scan_cronograma_spec (text : str) :
  scan_cronograma text = (spec_staging text, spec_production text).
Proof.
  unfold scan_cronograma, spec_staging, spec_production, schedule_dates.
  destruct (re_search re_I HIST_CRONO_RE text) as [m|]; [|reflexivity].
  cbv beta iota.
  destruct (Nat.leb_spec 2 (List.length
    (re_findall no_flag DATE_DDMMYYYY
       (join (py "\n") (firstn 250 (splitlines (rest_after m))))))) as [H|H].
  - f_equal; symmetry; [apply nth_before_last_of | apply nth_last_of]; lia.
  - reflexivity.
Qed.

(** C7. For every text: the version returned is the last label among the
    lines with the shape of a version line in the 120 lines of the text
    after the first Controle de Versões header, and unset without such a
    line or without the header; with at least two dates dd/mm/yyyy in the
    250 lines of the text after the first Histórico de Alterações /
    Cronograma header the staging date is the one before the last and the
    production date the last, and with fewer both are unset.  Each scan
    reads its own header only: a text with the version table alone gives
    the version and no dates, a text with the schedule alone gives the dates
    and no version. *)
Theorem C7_versions_block (text : str) :
  _extract_versions_block text
  = (spec_version text, spec_staging text, spec_production text)
  /\ _extract_versions_block (ex_versions ++ ex_schedule)
     = (Some (py "1.20"), Some (py "15/06/2025"), Some (py "01/07/2025"))
  /\ _extract_versions_block ex_versions = (Some (py "1.20"), None, None)
  /\ _extract_versions_block ex_schedule
     = (None, Some (py "15/06/2025"), Some (py "01/07/2025")).
Proof.
  split.
  - unfold _extract_versions_block.
    rewrite scan_versao_spec, scan_cronograma_spec. reflexivity.
  - run.
Qed.

(** *** The orchestration *)

(** C2. For every PDF, title and publication date: the table path is taken
    first and the text path only when the table path gives no record
    ([yielded]); with no record at all [extract_rules_from_pdf] returns
    exactly one row with the title, the publication date and the version
    data and with every rule field empty; with N >= 1 records it returns
    exactly N rows, which all carry the same title, version, publication
    date, staging date and production date. *)
Theorem C2_orchestration_shape (f : pdf_file) (title : str) (pub : option str) :
  let rows := extract_rules_from_pdf f title pub in
  let versao := fst (fst (_extract_versions_block (_pdf_text f))) in
  let hml := snd (fst (_extract_versions_block (_pdf_text f))) in
  let prd := snd (_extract_versions_block (_pdf_text f)) in
  match yielded f with
  | [] =>
    rows = [mkNTRow title versao pub hml prd None None None None None None]
  | _ :: _ =>
    List.length rows = List.length (yielded f)
    /\ Forall (same_meta title pub versao hml prd) rows
    /\ map rule_fields rows
       = map (fun d => map (fun v => Some (clean_space v)) (rv_values d))
             (yielded f)
  end.
Proof.
  unfold extract_rules_from_pdf, yielded.
  destruct (_extract_versions_block (_pdf_text f)) as [[v h] p]. simpl fst; simpl snd.
  destruct (_parse_rv_tables f) as [[|d l]|e]; cbn [truthy_list negb].
  - destruct (_parse_rv_text (_pdf_text f)) as [|d l]; cbn [truthy_list negb].
    + reflexivity.
    + split; [now rewrite length_map|split].
      * apply Forall_map, Forall_forall. intros x _. repeat split.
      * now rewrite map_map.
  - split; [now rewrite length_map|split].
    + apply Forall_map, Forall_forall. intros x _. repeat split.
    + now rewrite map_map.
  - destruct (_parse_rv_text (_pdf_text f)) as [|d l]; cbn [truthy_list negb].
    + reflexivity.
    + split; [now rewrite length_map|split].
      * apply Forall_map, Forall_forall. intros x _. repeat split.
      * now rewrite map_map.
Qed.

(** *** More on [clean_space] *)

Lemma lstrip_split (s : str) :
  exists w, s = w ++ lstrip s /\ Forall (fun c => isspace c = true) w.
Proof.
  induction s as [|c s (w & E & Hw)]; [exists []; now split|]. simpl.
  destruct (isspace c) eqn:Hc; [|exists []; now split].
  exists (c :: w). split; [simpl; now rewrite <- E | now constructor].
Qed.

Lemma strip_split (s : str) :
  exists w1 w2,
    s = w1 ++ strip s ++ w2
    /\ Forall (fun c => isspace c = true) w1
    /\ Forall (fun c => isspace c = true) w2.
Proof.
  unfold strip, rstrip.
  destruct (lstrip_split (rev s)) as (w2 & E2 & H2).
  destruct (lstrip_split (rev (lstrip (rev s)))) as (w1 & E1 & H1).
  exists w1, (rev w2). split; [|split; [exact H1 | now apply Forall_rev]].
  rewrite app_assoc, <- E1, <- rev_app_distr, <- E2.
  now rewrite rev_involutive.
Qed.

Lemma filter_none {A : Type} (keep : A -> bool) (l : list A) :
  (forall c, In c l -> keep c = false) -> filter keep l = [].
Proof.
  induction l as [|x l IH]; intros H; [reflexivity|]. simpl.
  rewrite (H x) by now left. apply IH. intros c Hc. apply H. now right.
Qed.

Lemma filter_spaces (w : str) :
  Forall (fun c => isspace c = true) w -> filter nonspace w = [].
Proof.
  intros H. apply filter_none. intros c Hc.
  rewrite Forall_forall in H. now rewrite (H c Hc).
Qed.

Lemma squeeze_filter (keep cls : char -> bool) (fires : str -> bool)
  (repl s : str) (d : bool) :
  (forall c, cls c = true -> keep c = false) ->
  (forall c, In c repl -> keep c = false) ->
  filter keep (squeeze cls fires repl d s) = filter keep s.
Proof.
  intros Hcls Hrepl. revert d. induction s as [|c s IH]; intros d; [reflexivity|].
  cbn [squeeze filter]. destruct (cls c) eqn:Hc.
  - rewrite (Hcls c Hc). destruct d; [apply IH|].
    destruct (fires (c :: s)).
    + now rewrite filter_app, (filter_none keep repl Hrepl), IH.
    + cbn [filter]. now rewrite (Hcls c Hc), IH.
  - cbn [filter]. now rewrite IH.
Qed.

Lemma space_classes (c : char) :
  (is_blank c = true -> isspace c = true)
  /\ (is_nl c = true -> isspace c = true).
Proof.
  unfold is_blank, is_nl. split; intros H.
  - apply orb_prop in H as [H|H]; apply N.eqb_eq in H; subst c; reflexivity.
  - now apply nl_is_space.
Qed.

(** The side conditions on the three substitutions: the class and the
    replacement are whitespace. *)
Ltac ws_side :=
  let c := fresh "c" in
  let Hc := fresh "Hc" in
  intros c Hc;
  first
    [ rewrite (proj1 (space_classes c) Hc); reflexivity
    | rewrite (proj2 (space_classes c) Hc); reflexivity
    | rewrite Hc; reflexivity
    | simpl in Hc;
      repeat (destruct Hc as [<-|Hc]; [reflexivity|]); destruct Hc ].

Lemma filter_map_nbsp (s : str) :
  filter nonspace (map (fun c => if c =? ch_nbsp then ch_space else c) s)
  = filter nonspace s.
Proof.
  induction s as [|c s IH]; [reflexivity|]. cbn [map filter]. rewrite IH.
  destruct (N.eqb_spec c ch_nbsp) as [->|]; reflexivity.
Qed.

Lemma clean_space_keeps_text (s : str) :
  filter nonspace (clean_space s) = filter nonspace s.
Proof.
  rewrite clean_space_squeeze.
  match goal with |- filter _ (strip ?x) = _ => set (t := x) end.
  destruct (strip_split t) as (w1 & w2 & E & H1 & H2).
  transitivity (filter nonspace t).
  - rewrite E at 2. rewrite !filter_app, (filter_spaces _ H1), (filter_spaces _ H2).
    now rewrite app_nil_r.
  - unfold t. rewrite !squeeze_filter by ws_side. apply filter_map_nbsp.
Qed.

Lemma filter_nonspace_nil (s : str) :
  filter nonspace s = [] <-> forallb isspace s = true.
Proof.
  induction s as [|c s IH]; [now split|]. cbn [filter forallb].
  destruct (isspace c); cbn [negb andb]; [exact IH|]. split; discriminate.
Qed.

Lemma clean_space_empty_iff (s : str) :
  clean_space s = [] <-> forallb isspace s = true.
Proof.
  rewrite <- filter_nonspace_nil, <- clean_space_keeps_text. split.
  - now intros ->.
  - intros H. destruct (clean_space_normal s) as (_ & _ & _ & _ & Hh & _).
    destruct (clean_space s) as [|c t]; [reflexivity|].
    cbn [head_ok] in Hh. cbn [filter] in H. rewrite Hh in H. discriminate.
Qed.

Lemma squeeze_length (cls : char -> bool) (fires : str -> bool)
  (repl s : str) (d : bool) :
  (List.length repl <= 1)%nat ->
  (List.length (squeeze cls fires repl d s) <= List.length s)%nat.
Proof.
  intros Hr. revert d. induction s as [|c s IH]; intros d; [simpl; lia|].
  cbn [squeeze]. pose proof (IH true). pose proof (IH false).
  destruct (cls c); [|simpl; lia].
  destruct d; [simpl; lia|].
  destruct (fires (c :: s)); [rewrite length_app|]; simpl; lia.
Qed.

Lemma clean_space_length (s : str) :
  (List.length (clean_space s) <= List.length s)%nat.
Proof.
  rewrite clean_space_squeeze.
  rewrite (sq_nl3_id _ (sq_nl_no_adj _ false)).
  match goal with |- (List.length (strip ?x) <= _)%nat => set (t := x) end.
  destruct (strip_split t) as (w1 & w2 & E & _ & _).
  assert (Ht : (List.length (strip t) <= List.length t)%nat).
  { rewrite E at 2. rewrite !length_app. lia. }
  assert (H1 : (List.length t <= List.length s)%nat).
  { unfold t. etransitivity; [apply squeeze_length; simpl; lia|].
    etransitivity; [apply squeeze_length; simpl; lia|].
    now rewrite length_map. }
  lia.
Qed.

(** X1. The texts [clean_space] returns are exactly the texts in normal
    form: every result has no non-breaking space, no tab, no two spaces
    side by side, no newline beside whitespace and no whitespace at either
    end, and a text is returned as it is exactly when it has this form. *)
Theorem X1_clean_space_normal_form (s : str) :
  normal (clean_space s) /\ (clean_space s = s <-> normal s).
Proof.
  split; [apply clean_space_normal|]. split.
  - intros E. rewrite <- E. apply clean_space_normal.
  - apply clean_space_fixed.
Qed.

(** X2. [clean_space] changes whitespace only: the characters that are
    not whitespace come out all, in the same order. *)
Theorem X2_clean_space_keeps_text (s : str) :
  filter (fun c => negb (isspace c)) (clean_space s)
  = filter (fun c => negb (isspace c)) s.
Proof. exact (clean_space_keeps_text s). Qed.

(** X3. [clean_space] returns the empty text exactly for the texts made of
    whitespace only (the empty text among them). *)
Theorem X3_clean_space_empty (s : str) :
  clean_space s = [] <-> forallb isspace s = true.
Proof. exact (clean_space_empty_iff s). Qed.

(** X4. [clean_space] never makes a text longer. *)
Theorem X4_clean_space_shorter (s : str) :
  (List.length (clean_space s) <= List.length s)%nat.
Proof. exact (clean_space_length s). Qed.

(** *** Texts without whitespace inside a cleaned text *)

Section ContainsKept.
(** [n] is the text looked for, [f] a change of characters made before
    the search (none, or lowercasing) that never turns whitespace into a
    character of [n]. *)
Variables (f : char -> char) (n : str).
Hypothesis n_not_empty : n <> [].
Hypothesis space_out : forall c, isspace c = true -> ~ In (f c) n.

Lemma starts_with_out (n' t : str) (x : char) :
  n' <> [] -> incl n' n -> ~ In x n -> starts_with n' (x :: t) = false.
Proof.
  destruct n' as [|y n']; [congruence|]. intros _ Hi Hx. simpl.
  destruct (N.eqb_spec y x) as [->|]; [|reflexivity].
  exfalso. apply Hx, Hi. now left.
Qed.

Lemma contains_skip_prefix (w t : str) :
  Forall (fun c => ~ In c n) w -> contains n (w ++ t) = contains n t.
Proof.
  induction 1 as [|x w Hx _ IH]; [reflexivity|].
  change ((x :: w) ++ t) with (x :: (w ++ t)). cbn [contains].
  rewrite starts_with_out, IH; [reflexivity|exact n_not_empty| |exact Hx].
  apply incl_refl.
Qed.

Lemma contains_none (w : str) :
  Forall (fun c => ~ In c n) w -> contains n w = false.
Proof.
  intros H. rewrite <- (app_nil_r w), (contains_skip_prefix w [] H).
  now apply contains_nil.
Qed.

Lemma contains_skip_suffix (t w : str) :
  Forall (fun c => ~ In c n) w -> contains n (t ++ w) = contains n t.
Proof.
  intros H. destruct H as [|x w Hx Hw]; [now rewrite app_nil_r|].
  rewrite (contains_sep n t w x Hx n_not_empty), (contains_none w Hw).
  apply orb_false_r.
Qed.

Lemma spaces_out (w : str) :
  Forall (fun c => isspace c = true) w -> Forall (fun c => ~ In c n) (map f w).
Proof.
  induction 1 as [|x w Hx _ IH]; [constructor|].
  simpl. constructor; [now apply space_out|exact IH].
Qed.

Section Squeezed.
Variables (cls : char -> bool) (fires : str -> bool) (repl : str).
Hypothesis cls_space : forall c, cls c = true -> isspace c = true.
Hypothesis repl_space : Forall (fun c => isspace c = true) repl.
Hypothesis repl_not_empty : repl <> [].

Lemma starts_with_squeeze (s n' : str) :
  incl n' n ->
  starts_with n' (map f (squeeze cls fires repl false s))
  = starts_with n' (map f s).
Proof.
  revert n'. induction s as [|c s IH]; intros n' Hi; [reflexivity|].
  destruct n' as [|y n']; [reflexivity|].
  assert (Hi' : incl n' n) by (intros z Hz; apply Hi; now right).
  cbn [squeeze]. destruct (cls c) eqn:Hc.
  - assert (Hout : ~ In (f c) n) by now apply space_out, cls_space.
    cbn [map]. rewrite (starts_with_out (y :: n') _ (f c)) by (auto; discriminate).
    destruct (fires (c :: s)).
    + destruct repl as [|r0 rs]; [congruence|]. cbn [app map].
      apply starts_with_out; [discriminate|exact Hi|].
      apply space_out. now inversion repl_space.
    + cbn [map]. apply starts_with_out; [discriminate|exact Hi|exact Hout].
  - cbn [map starts_with]. now rewrite IH.
Qed.

Lemma contains_squeeze (s : str) (d : bool) :
  contains n (map f (squeeze cls fires repl d s)) = contains n (map f s).
Proof.
  revert d. induction s as [|c s IH]; intros d; [reflexivity|].
  destruct (cls c) eqn:Hc.
  - assert (Hout : ~ In (f c) n) by now apply space_out, cls_space.
    assert (Hrhs : contains n (map f (c :: s)) = contains n (map f s)).
    { cbn [map contains].
      now rewrite (starts_with_out n _ (f c) n_not_empty (incl_refl n) Hout). }
    rewrite Hrhs. cbn [squeeze]. rewrite Hc.
    destruct d; [apply IH|]. destruct (fires (c :: s)).
    + rewrite map_app, contains_skip_prefix; [apply IH|now apply spaces_out].
    + cbn [map contains].
      now rewrite (starts_with_out n _ (f c) n_not_empty (incl_refl n) Hout), IH.
  - assert (E : squeeze cls fires repl d (c :: s)
                = squeeze cls fires repl false (c :: s)).
    { cbn [squeeze]. now rewrite Hc. }
    rewrite E. cbn [map contains].
    change (f c :: map f s) with (map f (c :: s)).
    rewrite <- (starts_with_squeeze (c :: s) n (incl_refl n)).
    cbn [squeeze]. rewrite Hc. cbn [map contains]. now rewrite IH.
Qed.
End Squeezed.

Lemma contains_map_nbsp (s : str) :
  contains n (map f (map (fun c => if c =? ch_nbsp then ch_space else c) s))
  = contains n (map f s).
Proof.
  assert (Hsw : forall s n', incl n' n ->
             starts_with n' (map f (map (fun c => if c =? ch_nbsp then ch_space else c) s))
             = starts_with n' (map f s)).
  { clear s. induction s as [|c s IH]; intros n' Hi; [reflexivity|].
    destruct n' as [|y n']; [reflexivity|].
    assert (Hi' : incl n' n) by (intros z Hz; apply Hi; now right).
    cbn [map]. destruct (N.eqb_spec c ch_nbsp) as [->|].
    - rewrite !(starts_with_out (y :: n')); auto; try discriminate;
        now apply space_out.
    - cbn [starts_with]. now rewrite IH. }
  induction s as [|c s IH]; [reflexivity|].
  pose proof (Hsw (c :: s) n (incl_refl n)) as E. cbn [map] in E.
  cbn [map contains]. now rewrite E, IH.
Qed.

Lemma contains_clean_space (s : str) :
  contains n (map f (clean_space s)) = contains n (map f s).
Proof.
  rewrite clean_space_squeeze.
  match goal with |- contains n (map f (strip ?x)) = _ => set (t := x) end.
  destruct (strip_split t) as (w1 & w2 & E & H1 & H2).
  transitivity (contains n (map f t)).
  - rewrite E at 2. rewrite !map_app.
    rewrite contains_skip_prefix by now apply spaces_out.
    now rewrite contains_skip_suffix by now apply spaces_out.
  - unfold t.
    rewrite (contains_squeeze is_nl three_nl [ch_nl; ch_nl]
               (fun c => proj2 (space_classes c))
               ltac:(repeat constructor) ltac:(discriminate)).
    rewrite (contains_squeeze isspace run_has_nl [ch_nl]
               (fun c H => H) ltac:(repeat constructor) ltac:(discriminate)).
    rewrite (contains_squeeze is_blank always [ch_space]
               (fun c => proj1 (space_classes c))
               ltac:(repeat constructor) ltac:(discriminate)).
    apply contains_map_nbsp.
Qed.
End ContainsKept.

(** X5. A text without whitespace lies in the result of [clean_space]
    exactly when it lies in the argument: cleaning neither breaks nor
    creates a word or a label. *)
Theorem X5_clean_space_keeps_words (n s : str) :
  truthy n = true ->
  forallb (fun c => negb (isspace c)) n = true ->
  contains n (clean_space s) = contains n s.
Proof.
  intros Hn Hw.
  assert (E : contains n (map (fun c => c) (clean_space s))
              = contains n (map (fun c => c) s)).
  { apply contains_clean_space.
    - destruct n; discriminate.
    - intros c Hc Hi. rewrite forallb_forall in Hw.
      apply Hw in Hi. rewrite Hc in Hi. discriminate. }
  now rewrite !map_id in E.
Qed.

Lemma X5_clean_space_keeps_words_witness :
  truthy (py "regra") = true
  /\ forallb (fun c => negb (isspace c)) (py "regra") = true
  /\ contains (py "regra") (clean_space ex_messy_cell)
     = contains (py "regra") ex_messy_cell.
Proof.
  assert (H1 : truthy (py "regra") = true) by reflexivity.
  assert (H2 : forallb (fun c => negb (isspace c)) (py "regra") = true)
    by reflexivity.
  split; [exact H1|]. split; [exact H2|].
  exact (X5_clean_space_keeps_words (py "regra") ex_messy_cell H1 H2).
Defined.

(** *** [normalize_href] *)

(** [p+] matches the run of characters of the class at the cursor. *)
Lemma class_run_match (p : char -> bool) (bef aft : str) :
  option_map snd (nonempty_match no_flag (many1 (Cls p)) bef aft)
  = run_match p always aft.
Proof.
  unfold nonempty_match, match_at, many1.
  cbn [exec before after caps]. rewrite greedy_last.
  rewrite (skip_run_ext _ p), (run_len_ext _ p)
    by (intros c; unfold atom_ok, no_flag; cbn [andb]; apply orb_false_r).
  unfold run_match, always.
  destruct (run_len p aft) as [|n] eqn:E; [reflexivity|].
  cbn [Nat.leb]. rewrite match_len_run, E. reflexivity.
Qed.

Lemma squeeze_drop (p : char -> bool) (s : str) (d : bool) :
  squeeze p always [] d s = filter (fun c => negb (p c)) s.
Proof.
  revert d. induction s as [|c s IH]; intros d; [reflexivity|].
  cbn [squeeze filter]. unfold always at 1.
  destruct (p c); cbn [negb app]; [destruct d; apply IH | now rewrite IH].
Qed.

Lemma replace_char_drop (x : char) (s : str) :
  replace [x] [] s = filter (fun c => negb (c =? x)) s.
Proof.
  unfold replace. induction s as [|c s IH]; [reflexivity|].
  cbn [replace_loop starts_with List.length pred filter app].
  rewrite IH, andb_true_r, (N.eqb_sym x c). now destruct (c =? x).
Qed.

Lemma filter_twice {A : Type} (p q : A -> bool) (l : list A) :
  (forall c, p c = true -> q c = true) ->
  filter p (filter q l) = filter p l.
Proof.
  intros H. induction l as [|c l IH]; [reflexivity|]. cbn [filter].
  destruct (q c) eqn:Hq; cbn [filter]; rewrite IH; [reflexivity|].
  destruct (p c) eqn:Hp; [|reflexivity]. apply H in Hp. congruence.
Qed.

Lemma normalize_href_filter (s : str) :
  normalize_href (Some s) = Some (filter nonspace s).
Proof.
  unfold normalize_href. destruct s as [|c s]; [reflexivity|].
  cbn [truthy negb]. f_equal.
  rewrite (re_sub_squeeze _ _ _ _ _ (class_run_match isspace)), squeeze_drop.
  change (py "\n") with [ch_nl]. change (py "\r") with [ch_cr].
  rewrite !replace_char_drop, !filter_twice; [reflexivity| |].
  - intros x Hx. destruct (N.eqb_spec x ch_cr) as [->|]; [discriminate|reflexivity].
  - intros x Hx. destruct (N.eqb_spec x ch_nl) as [->|]; [discriminate|reflexivity].
Qed.

(** X6. [normalize_href] drops exactly the whitespace characters of a
    link, wherever they are, and keeps the rest in order; [None] and the
    empty text come back as they are; applying it twice gives the same as
    once. *)
Theorem X6_normalize_href (href : option str) :
  normalize_href href = option_map (filter (fun c => negb (isspace c))) href
  /\ normalize_href (normalize_href href) = normalize_href href.
Proof.
  assert (H : forall h, normalize_href h
                        = option_map (filter (fun c => negb (isspace c))) h).
  { intros [s|]; [apply normalize_href_filter|reflexivity]. }
  split; [apply H|]. rewrite !H. destruct href as [s|]; [|reflexivity].
  cbn [option_map]. f_equal. apply filter_twice. auto.
Qed.

(** *** [is_probably_pdf_bytes] *)

Lemma starts_with_app (p s : str) :
  starts_with p s = true <-> exists t, s = p ++ t.
Proof.
  revert s. induction p as [|a p IH]; intros s.
  - split; [now exists s|reflexivity].
  - destruct s as [|b s]; simpl.
    + split; [discriminate|intros [t E]; discriminate].
    + rewrite andb_true_iff, IH, N.eqb_eq. split.
      * intros [-> [t ->]]. now exists t.
      * intros [t E]. injection E as -> ->. split; [reflexivity|now exists t].
Qed.

Lemma contains_app (n s : str) :
  contains n s = true <-> exists a t, s = a ++ n ++ t.
Proof.
  induction s as [|c s IH].
  - cbn [contains]. rewrite orb_false_r, starts_with_app. split.
    + intros [t E]. now exists [], t.
    + intros (a & t & E). destruct a; [now exists t|discriminate].
  - cbn [contains]. rewrite orb_true_iff, starts_with_app, IH. split.
    + intros [[t E]|(a & t & E)]; [now exists [], t|].
      exists (c :: a), t. simpl. now rewrite E.
    + intros (a & t & E). destruct a as [|x a].
      * left. now exists t.
      * right. injection E as -> ->. now exists a, t.
Qed.

Lemma rfind_from_least (sub b : bytes) (i found : Z) :
  (found <= i)%Z -> (found <= rfind_from sub b i found)%Z.
Proof.
  revert i found. induction b as [|x b IH]; intros i found H;
    cbn [rfind_from]; cbv zeta.
  - destruct (starts_with sub _); lia.
  - destruct (starts_with sub _).
    + specialize (IH (i + 1)%Z i). lia.
    + apply IH. lia.
Qed.

Lemma rfind_from_found (sub b : bytes) (i found : Z) :
  contains sub b = true -> (i <= rfind_from sub b i found)%Z.
Proof.
  revert i found. induction b as [|x b IH]; intros i found H.
  - cbn [contains rfind_from] in *. rewrite orb_false_r in H. rewrite H. lia.
  - cbn [contains rfind_from] in *. destruct (starts_with sub _).
    + pose proof (rfind_from_least sub b (i + 1)%Z i). lia.
    + cbn [orb] in H. specialize (IH (i + 1)%Z found H). lia.
Qed.

Lemma rfind_from_missing (sub b : bytes) (i found : Z) :
  contains sub b = false -> rfind_from sub b i found = found.
Proof.
  revert i found. induction b as [|x b IH]; intros i found H.
  - cbn [contains rfind_from] in *. rewrite orb_false_r in H. now rewrite H.
  - cbn [contains rfind_from] in *. apply orb_false_elim in H as [H1 H2].
    rewrite H1. now apply IH.
Qed.

(** [b.rfind(sub) != -1] says that [sub] occurs in [b]. *)
Lemma rfind_contains (sub b : bytes) :
  negb (rfind sub b =? -1)%Z = contains sub b.
Proof.
  unfold rfind. destruct (contains sub b) eqn:H.
  - pose proof (rfind_from_found sub b 0%Z (-1)%Z H).
    apply negb_true_iff, Z.eqb_neq. lia.
  - now rewrite (rfind_from_missing sub b 0%Z (-1)%Z H).
Qed.

Lemma pdf_bytes_shape (b : bytes) :
  is_probably_pdf_bytes b = true
  <-> exists mid tail, b = py "%PDF" ++ mid ++ py "%%EOF" ++ tail.
Proof.
  unfold is_probably_pdf_bytes. rewrite rfind_contains, andb_true_iff.
  rewrite starts_with_app. split.
  - intros [[t ->] H]. change (py "%PDF" ++ t) with (37 :: 80 :: 68 :: 70 :: t) in H.
    change (py "%%EOF") with [37; 37; 69; 79; 70] in H.
    cbn [contains starts_with N.eqb Pos.eqb andb orb] in H.
    apply contains_app in H as (mid & tail & ->). now exists mid, tail.
  - intros (mid & tail & ->). split; [now exists (mid ++ py "%%EOF" ++ tail)|].
    apply contains_app. exists (py "%PDF" ++ mid), tail. now rewrite <- app_assoc.
Qed.

(** X7. [is_probably_pdf_bytes] accepts exactly the byte strings that begin
    with %PDF and hold %%EOF somewhere after it; the marker cannot overlap
    the header, so an accepted string has at least 9 bytes. *)
Theorem X7_pdf_bytes (b : bytes) :
  (is_probably_pdf_bytes b = true
   <-> exists mid tail, b = py "%PDF" ++ mid ++ py "%%EOF" ++ tail)
  /\ (if is_probably_pdf_bytes b then 9 <=? List.length b else true)%nat = true.
Proof.
  split; [apply pdf_bytes_shape|].
  destruct (is_probably_pdf_bytes b) eqn:H; [|reflexivity].
  apply pdf_bytes_shape in H as (mid & tail & ->).
  apply Nat.leb_le. rewrite !length_app.
  change (List.length (py "%PDF")) with 4%nat.
  change (List.length (py "%%EOF")) with 5%nat. lia.
Qed.

(** *** When the table parser raises *)

Lemma bind_raise {A B : Type} (x : result A) (f : A -> result B) (e : exn) :
  bind x f = Raise e -> x = Raise e \/ exists a, x = Ok a /\ f a = Raise e.
Proof.
  destruct x as [a|e']; simpl; intros H; [right; now exists a|].
  left. now injection H as ->.
Qed.

Lemma index_where_lt {A : Type} (f : A -> bool) (l : list A) (i : nat) :
  index_where f l = Some i -> (i < List.length l)%nat.
Proof.
  revert i. induction l as [|x l IH]; intros i H; [discriminate|]. simpl in *.
  destruct (f x); [injection H as <-; lia|].
  destruct (index_where f l) as [j|]; [|discriminate].
  injection H as <-. specialize (IH j eq_refl). lia.
Qed.

Lemma index_where_none {A : Type} (f : A -> bool) (l : list A) :
  (forall x, In x l -> f x = false) -> index_where f l = None.
Proof.
  induction l as [|x l IH]; intros H; [reflexivity|]. simpl.
  rewrite (H x) by now left.
  rewrite IH; [reflexivity|]. intros y Hy. apply H. now right.
Qed.

Lemma cell_at_raise (cs : list str) (idx : option nat) (e : exn) :
  cell_at cs idx = Raise e ->
  e = IndexError /\ exists i, idx = Some i /\ (List.length cs <= i)%nat.
Proof.
  unfold cell_at. destruct idx as [i|]; [|discriminate].
  destruct (nth_error cs i) eqn:E; [discriminate|].
  intros H. injection H as <-. split; [reflexivity|].
  exists i. split; [reflexivity|]. now apply nth_error_None.
Qed.

Lemma row_dict_raise (header : list str) (r : row) (e : exn) :
  row_dict (header_columns header) r = Raise e ->
  e = IndexError /\ (List.length r + 6 < List.length header)%nat.
Proof.
  unfold row_dict, header_columns, find_idx.
  cbn [idx_campo idx_regra idx_aplic idx_msg idx_desc].
  set (cs := map (fun c => clean_space (or_empty c)) r ++ repeat [] 6).
  assert (Hl : List.length cs = (List.length r + 6)%nat).
  { unfold cs. now rewrite length_app, length_map, repeat_length. }
  assert (Hcell : forall idx,
             cell_at cs idx = Raise e ->
             (forall i, idx = Some i -> (i < List.length header)%nat) ->
             e = IndexError /\ (List.length r + 6 < List.length header)%nat).
  { intros idx H Hi. apply cell_at_raise in H as (-> & i & -> & Hle).
    split; [reflexivity|]. specialize (Hi i eq_refl). lia. }
  intros H.
  repeat (apply bind_raise in H as [H|(? & _ & H)];
          [eapply Hcell; [exact H|intros i; apply index_where_lt]|]).
  discriminate.
Qed.

Lemma rows_loop_raise (cols : columns) (rows : list row) (out : list RV) (e : exn) :
  rows_loop cols rows out = Raise e ->
  exists r, In r rows /\ row_dict cols r = Raise e.
Proof.
  revert out. induction rows as [|r rows IH]; intros out H; [discriminate|].
  cbn [rows_loop] in H. apply bind_raise in H as [H|(d & _ & H)].
  - exists r. split; [now left|exact H].
  - apply IH in H as (r' & Hr & H). exists r'. split; [now right|exact H].
Qed.

Lemma table_step_raise (tbl : table) (out : list RV) (e : exn) :
  table_step tbl out = Raise e ->
  e = IndexError
  /\ exists header r,
       find_header tbl = Some header /\ In r (skipn 1 tbl)
       /\ (List.length r + 6 < List.length header)%nat.
Proof.
  unfold table_step. destruct (List.length tbl <? 2)%nat; [discriminate|].
  destruct (find_header tbl) as [header|]; [|discriminate].
  destruct (negb (truthy_list header)); [discriminate|].
  intros H. apply rows_loop_raise in H as (r & Hr & H).
  apply row_dict_raise in H as [-> Hl]. split; [reflexivity|].
  now exists header, r.
Qed.

(** X8. The only exception the rows of a table can raise is IndexError,
    and it is raised only when some row after the first has more than 6
    cells fewer than the header row: the row is padded with 6 cells, not
    up to the width of the header. *)
Theorem X8_table_index_error (tbl : table) (out : list RV) (e : exn) :
  table_step tbl out = Raise e ->
  e = IndexError
  /\ exists header r,
       find_header tbl = Some header /\ In r (skipn 1 tbl)
       /\ (List.length r + 6 < List.length header)%nat.
Proof. exact (table_step_raise tbl out e). Qed.

Lemma X8_table_index_error_witness :
  table_step [ex_wide_header; ex_short_row] [] = Raise IndexError
  /\ IndexError = IndexError
  /\ exists header r,
       find_header [ex_wide_header; ex_short_row] = Some header
       /\ In r (skipn 1 [ex_wide_header; ex_short_row])
       /\ (List.length r + 6 < List.length header)%nat.
Proof.
  assert (H : table_step [ex_wide_header; ex_short_row] [] = Raise IndexError)
    by (vm_compute; reflexivity).
  split; [exact H|].
  exact (X8_table_index_error [ex_wide_header; ex_short_row] [] IndexError H).
Defined.

(** *** Tables without a description column *)

Lemma contains_prefix (a b s : str) :
  contains (a ++ b) s = true -> contains a s = true.
Proof.
  rewrite !contains_app. intros (x & t & ->).
  exists x, (b ++ t). now rewrite <- app_assoc.
Qed.

Lemma no_desc_column (header : list str) :
  (forall h, In h header ->
             contains (py "descr") (lower h) = false
             /\ contains (py "observ") (lower h) = false) ->
  idx_desc (header_columns header) = None.
Proof.
  intros H. unfold header_columns, find_idx. cbn [idx_desc].
  apply index_where_none. intros h Hh. destruct (H h Hh) as [H1 H2].
  change (map lower [py "descr"; py "descrição"; py "descricao"; py "observ"])
    with [py "descr"; py "descr" ++ py "ição"; py "descr" ++ py "icao"; py "observ"].
  cbn [existsb]. rewrite H1, H2.
  destruct (contains (py "descr" ++ py "ição") (lower h)) eqn:E1;
    [apply contains_prefix in E1; congruence|].
  destruct (contains (py "descr" ++ py "icao") (lower h)) eqn:E2;
    [apply contains_prefix in E2; congruence|].
  reflexivity.
Qed.

Lemma rows_loop_no_desc (cols : columns) (rows : list row) (out out' : list RV) :
  idx_desc cols = None -> rows_loop cols rows out = Ok out' -> out' = out.
Proof.
  intros Hd. revert out. induction rows as [|r rows IH]; intros out H.
  - now injection H as <-.
  - cbn [rows_loop] in H. apply bind_ok in H as (d & Hr & H).
    assert (Hk : keep_row d = false).
    { unfold row_dict in Hr. rewrite Hd in Hr.
      apply bind_ok in Hr as (v1 & _ & Hr). apply bind_ok in Hr as (v2 & _ & Hr).
      apply bind_ok in Hr as (v3 & _ & Hr). apply bind_ok in Hr as (v4 & _ & Hr).
      cbn [cell_at bind] in Hr. injection Hr as <-.
      unfold keep_row. cbn [rv_descricao]. apply andb_false_r. }
    rewrite Hk in H. now apply IH.
Qed.

(** X9. A table whose header has no cell that contains, lowercased,
    "descr" or "observ" adds no record, whatever its rows hold: without a
    description column the description of every row is empty and the row
    is dropped. *)
Theorem X9_no_description_no_record (tbl : table) (header : list str)
  (out out' : list RV) :
  find_header tbl = Some header ->
  (forall h, In h header ->
             contains (py "descr") (lower h) = false
             /\ contains (py "observ") (lower h) = false) ->
  table_step tbl out = Ok out' ->
  out' = out.
Proof.
  intros Hh Hno H. unfold table_step in H. rewrite Hh in H.
  destruct (List.length tbl <? 2)%nat; [now injection H as <-|].
  destruct (negb (truthy_list header)); [now injection H as <-|].
  apply (rows_loop_no_desc _ _ _ _ (no_desc_column header Hno) H).
Qed.

Lemma X9_no_description_no_record_witness :
  find_header [ex_header_msg; ex_cstat_data]
  = Some [py "Aplic."; py "Msg"; py "Cstat"]
  /\ (forall h, In h [py "Aplic."; py "Msg"; py "Cstat"] ->
                contains (py "descr") (lower h) = false
                /\ contains (py "observ") (lower h) = false)
  /\ table_step [ex_header_msg; ex_cstat_data] [ex_rv] = Ok [ex_rv]
  /\ [ex_rv] = [ex_rv].
Proof.
  assert (H1 : find_header [ex_header_msg; ex_cstat_data]
               = Some [py "Aplic."; py "Msg"; py "Cstat"])
    by (vm_compute; reflexivity).
  assert (H2 : forall h, In h [py "Aplic."; py "Msg"; py "Cstat"] ->
                         contains (py "descr") (lower h) = false
                         /\ contains (py "observ") (lower h) = false).
  { intros h Hh. simpl in Hh.
    destruct Hh as [<-|[<-|[<-|[]]]]; vm_compute; auto. }
  assert (H3 : table_step [ex_header_msg; ex_cstat_data] [ex_rv] = Ok [ex_rv])
    by (vm_compute; reflexivity).
  split; [exact H1|]. split; [exact H2|]. split; [exact H3|].
  exact (X9_no_description_no_record _ _ _ _ H1 H2 H3).
Defined.

(** *** A header that is found has its columns *)

Ltac cmp_by_lia :=
  repeat match goal with
         | |- context [(?a <=? ?b)%N] =>
           first [ rewrite (proj2 (N.leb_le a b)) by lia
                 | rewrite (proj2 (N.leb_gt a b)) by lia ]
         | |- context [(?a =? ?b)%N] =>
           first [ rewrite (proj2 (N.eqb_eq a b)) by lia
                 | rewrite (proj2 (N.eqb_neq a b)) by lia ]
         end.

Lemma upper_not_space (c : char) : is_upper c = true -> isspace c = false.
Proof.
  unfold is_upper. intros H. apply orb_prop in H as [H|H].
  - apply andb_prop in H as [H1 H2]. apply N.leb_le in H1, H2.
    unfold isspace. cmp_by_lia. reflexivity.
  - apply andb_prop in H as [H _]. apply andb_prop in H as [H1 H2].
    apply N.leb_le in H1, H2. unfold isspace. cmp_by_lia. reflexivity.
Qed.

Lemma lower_space (c : char) : isspace c = true -> lower_char c = c.
Proof.
  intros H. unfold lower_char. destruct (is_upper c) eqn:U; [|reflexivity].
  apply upper_not_space in U. congruence.
Qed.

(** Lowercased, a cell holds a label without whitespace before cleaning
    exactly when it holds it after. *)
Lemma label_kept (n s : str) :
  truthy n = true -> forallb (fun c => negb (isspace c)) n = true ->
  contains n (lower (clean_space s)) = contains n (lower s).
Proof.
  intros Hn Hw. unfold lower. apply contains_clean_space.
  - destruct n; discriminate.
  - intros c Hc Hi. rewrite (lower_space c Hc) in Hi.
    rewrite forallb_forall in Hw. apply Hw in Hi. rewrite Hc in Hi. discriminate.
Qed.

Lemma find_idx_label (names : list str) (n : str) (r : row) :
  In n (map lower names) ->
  truthy n = true -> forallb (fun c => negb (isspace c)) n = true ->
  has_label n r = true ->
  find_idx (map (fun c => clean_space (or_empty c)) r) names <> None.
Proof.
  intros Hin Hn Hw H. unfold has_label in H.
  apply existsb_exists in H as (c & Hc & H).
  destruct (index_where_some
              (fun h => existsb (fun n => contains n (lower h)) (map lower names))
              (map (fun c => clean_space (or_empty c)) r)) as [i Hi].
  - exists (clean_space (or_empty c)).
    split; [exact (in_map (fun c => clean_space (or_empty c)) r c Hc)|].
    apply existsb_exists. exists n. split; [exact Hin|].
    now rewrite label_kept.
  - unfold find_idx. rewrite Hi. discriminate.
Qed.

(** X10. When [_guess_has_rv_header] takes a row as a header, the columns
    it was taken for are found in the cleaned header: the applicability
    column and the message column, or the description column and the rule
    column. *)
Theorem X10_header_has_columns (r : row) :
  let cols := header_columns (map (fun c => clean_space (or_empty c)) r) in
  if _guess_has_rv_header r
  then (idx_aplic cols <> None /\ idx_msg cols <> None)
       \/ (idx_desc cols <> None /\ idx_regra cols <> None)
  else True.
Proof.
  intros cols. rewrite guess_by_labels.
  destruct (header_by_labels r) eqn:H; [|exact I].
  unfold header_by_labels in H. apply orb_prop in H as [H|H];
    apply andb_prop in H as [H1 H2]; [left|right]; split; unfold cols;
    cbn [header_columns idx_aplic idx_msg idx_desc idx_regra].
  - apply (find_idx_label _ (py "aplic")); [now left|reflexivity|reflexivity|exact H1].
  - apply (find_idx_label _ (py "msg")); [now left|reflexivity|reflexivity|exact H2].
  - apply (find_idx_label _ (py "descr")); [now left|reflexivity|reflexivity|].
    unfold has_label in *. apply existsb_exists in H1 as (c & Hc & H1).
    apply existsb_exists. exists c. split; [exact Hc|].
    apply (contains_prefix (py "descr") (py "i")). exact H1.
  - apply (find_idx_label _ (py "regra")); [now left|reflexivity|reflexivity|exact H2].
Qed.

(** *** What [extract_rules_from_pdf] returns *)

Lemma row_cells_all_clean (cols : columns) (r : row) (d : RV) :
  row_dict cols r = Ok d -> Forall (fun v => clean_space v = v) (rv_values d).
Proof.
  unfold row_dict. intros H.
  apply bind_ok in H as [v1 [H1 H]]. apply bind_ok in H as [v2 [H2 H]].
  apply bind_ok in H as [v3 [H3 H]]. apply bind_ok in H as [v4 [H4 H]].
  apply bind_ok in H as [v5 [H5 H]]. injection H as <-.
  unfold rv_values. cbn [rv_campo rv_regra rv_aplic rv_msg rv_descricao].
  repeat constructor; eapply cell_at_clean; eauto using row_cells_clean.
Qed.

Lemma table_records_clean (f : pdf_file) (out : list RV) :
  _parse_rv_tables f = Ok out ->
  Forall (fun d => Forall (fun v => clean_space v = v) (rv_values d)) out.
Proof.
  apply parse_rv_tables_all. intros header r d H _.
  now apply row_cells_all_clean in H.
Qed.

(** X11. [extract_rules_from_pdf] gives rows with rule fields only from
    the records of the table parser, one row per record and the five fields
    of the record as they are (the second cleaning changes nothing); when
    the table parser raises or yields no record, the result is the single
    row of title, publication date and version data, since the text
    parser yields no record. *)
Theorem X11_rows_from_tables (f : pdf_file) (title : str) (pub : option str) :
  let rows := extract_rules_from_pdf f title pub in
  let versao := fst (fst (_extract_versions_block (_pdf_text f))) in
  let hml := snd (fst (_extract_versions_block (_pdf_text f))) in
  let prd := snd (_extract_versions_block (_pdf_text f)) in
  match _parse_rv_tables f with
  | Ok (d :: l) =>
    map rule_fields rows = map (fun d => map Some (rv_values d)) (d :: l)
    /\ Forall (same_meta title pub versao hml prd) rows
  | _ => rows = [mkNTRow title versao pub hml prd None None None None None None]
  end.
Proof.
  pose proof (table_records_clean f) as Hclean.
  unfold extract_rules_from_pdf.
  destruct (_extract_versions_block (_pdf_text f)) as [[v h] p].
  simpl fst; simpl snd. rewrite parse_rv_text_empty.
  destruct (_parse_rv_tables f) as [[|d l]|e]; cbn [truthy_list negb];
    [reflexivity| |reflexivity].
  specialize (Hclean (d :: l) eq_refl). split.
  - rewrite map_map. apply map_ext_in. intros x Hx.
    rewrite Forall_forall in Hclean. specialize (Hclean x Hx).
    unfold rv_values in Hclean.
    inversion Hclean as [|? ? E1 Hc1]; subst. inversion Hc1 as [|? ? E2 Hc2]; subst.
    inversion Hc2 as [|? ? E3 Hc3]; subst. inversion Hc3 as [|? ? E4 Hc4]; subst.
    inversion Hc4 as [|? ? E5 Hc5]; subst.
    unfold rule_fields, rv_values.
    cbn [campo regra aplic msg descricao map].
    now rewrite E1, E2, E3, E4, E5.
  - apply Forall_map, Forall_forall. intros x _. repeat split.
Qed.

(** X12. When the text of the file cannot be read (pypdf raises), every
    row [extract_rules_from_pdf] returns has no version, no staging date
    and no production date, also when the tables give records. *)
Theorem X12_no_text_no_version (f : pdf_file) (title : str) (pub : option str) :
  pypdf_pages f = None ->
  Forall (fun r => nt_versao r = None /\ implantacao_homolog r = None
                   /\ implantacao_producao r = None)
         (extract_rules_from_pdf f title pub).
Proof.
  intros H. unfold extract_rules_from_pdf, _pdf_text. rewrite H.
  change (_extract_versions_block []) with (@None str, @None str, @None str).
  cbv beta iota.
  destruct (_parse_rv_tables f) as [[|d l]|e]; cbn [truthy_list negb];
    try rewrite parse_rv_text_empty; cbn [truthy_list negb].
  - repeat constructor.
  - apply Forall_map, Forall_forall. intros x _. repeat split.
  - repeat constructor.
Qed.

Lemma X12_no_text_no_version_witness :
  pypdf_pages ex_pdf_no_text = None
  /\ Forall (fun r => nt_versao r = None /\ implantacao_homolog r = None
                      /\ implantacao_producao r = None)
            (extract_rules_from_pdf ex_pdf_no_text (py "NT 2025.002") None).
Proof.
  split; [reflexivity|].
  exact (X12_no_text_no_version ex_pdf_no_text (py "NT 2025.002") None eq_refl).
Defined.

(** *** Tables found more than once *)

Lemma rows_loop_shift (cols : columns) (rows : list row) (out : list RV) :
  rows_loop cols rows out = then_append out (rows_loop cols rows []).
Proof.
  revert out. induction rows as [|r rows IH]; intros out.
  - simpl. now rewrite app_nil_r.
  - cbn [rows_loop]. destruct (row_dict cols r) as [d|e]; [|reflexivity].
    cbn [bind]. rewrite (IH (if keep_row d then out ++ [d] else out)).
    rewrite (IH (if keep_row d then [] ++ [d] else [])).
    destruct (rows_loop cols rows []) as [n|e]; [|reflexivity].
    destruct (keep_row d); cbn [then_append app]; [now rewrite <- app_assoc|reflexivity].
Qed.

Lemma table_step_shift (tbl : table) (out : list RV) :
  table_step tbl out = then_append out (table_step tbl []).
Proof.
  unfold table_step.
  destruct (List.length tbl <? 2)%nat; [simpl; now rewrite app_nil_r|].
  destruct (find_header tbl) as [header|]; [|simpl; now rewrite app_nil_r].
  destruct (negb (truthy_list header)); [simpl; now rewrite app_nil_r|].
  apply rows_loop_shift.
Qed.

Lemma tables_loop_shift (tables : list table) (out : list RV) :
  tables_loop tables out = then_append out (tables_loop tables []).
Proof.
  revert out. induction tables as [|tbl tables IH]; intros out.
  - simpl. now rewrite app_nil_r.
  - cbn [tables_loop]. rewrite (table_step_shift tbl out).
    destruct (table_step tbl []) as [n|e]; [|reflexivity].
    cbn [then_append bind]. rewrite (IH (out ++ n)), (IH n).
    destruct (tables_loop tables []) as [n'|e]; [|reflexivity].
    cbn [then_append]. now rewrite app_assoc.
Qed.

Lemma tables_loop_app (a b : list table) (out : list RV) :
  tables_loop (a ++ b) out = bind (tables_loop a out) (tables_loop b).
Proof.
  revert out. induction a as [|tbl a IH]; intros out; [reflexivity|].
  cbn [app tables_loop]. destruct (table_step tbl out) as [o|e]; [|reflexivity].
  cbn [bind]. apply IH.
Qed.

(** X13. Tables are not deduplicated: when the three settings of
    [_iter_tables] all find the same tables on a page, every record of
    these tables is yielded three times, in three runs one after the
    other. *)
Theorem X13_tables_found_thrice (tables : list table) (rs : list RV)
  (pages_text : option (list (option str))) :
  tables_loop tables [] = Ok rs ->
  _parse_rv_tables (mkPdf pages_text (Some [mkPage (fun _ => Some tables)]))
  = Ok (rs ++ rs ++ rs).
Proof.
  intros H. unfold _parse_rv_tables.
  cbn [plumber_pages pages_loop].
  change (_iter_tables (mkPage (fun _ => Some tables)))
    with (tables ++ tables ++ tables ++ []).
  rewrite app_nil_r, tables_loop_app, H. cbn [bind].
  rewrite tables_loop_app, (tables_loop_shift tables rs), H.
  cbn [then_append bind].
  rewrite (tables_loop_shift tables (rs ++ rs)), H. cbn [then_append bind].
  now rewrite <- app_assoc.
Qed.

Lemma X13_tables_found_thrice_witness :
  tables_loop [[ex_header; ex_data]] [] = Ok [ex_rv]
  /\ _parse_rv_tables
       (mkPdf None (Some [mkPage (fun _ => Some [[ex_header; ex_data]])]))
     = Ok ([ex_rv] ++ [ex_rv] ++ [ex_rv]).
Proof.
  assert (H : tables_loop [[ex_header; ex_data]] [] = Ok [ex_rv])
    by (vm_compute; reflexivity).
  split; [exact H|].
  exact (X13_tables_found_thrice [[ex_header; ex_data]] [ex_rv] None H).
Defined.

(** *** The text a match covers *)

Lemma greedy_span {R : Type} (ok : char -> bool) (k : str -> str -> option R)
  (lo : nat) (hi : option nat) (bef aft : str) (m : R) :
  greedy ok k lo hi bef aft = Some m ->
  exists w aft',
    k (rev w ++ bef) aft' = Some m /\ aft = w ++ aft'
    /\ Forall (fun c => ok c = true) w
    /\ (lo <= List.length w)%nat
    /\ match hi with Some h => (List.length w <= h)%nat | None => True end.
Proof.
  revert lo hi bef. induction aft as [|c s IH]; intros lo hi bef H.
  - simpl in H. destruct lo; [|discriminate].
    exists [], []. repeat split; [exact H|constructor|lia|destruct hi; simpl; [lia|exact I]].
  - cbn [greedy] in H.
    assert (Hstop : match lo with O => k bef (c :: s) | S _ => None end = Some m ->
                    exists w aft',
                      k (rev w ++ bef) aft' = Some m /\ c :: s = w ++ aft'
                      /\ Forall (fun c => ok c = true) w
                      /\ (lo <= List.length w)%nat
                      /\ match hi with
                         | Some h => (List.length w <= h)%nat
                         | None => True
                         end).
    { destruct lo; [|discriminate]. intros E. exists [], (c :: s).
      repeat split; [exact E|constructor|lia|destruct hi; simpl; [lia|exact I]]. }
    destruct (hi_open hi) eqn:Ho; cbn [andb] in H; [|now apply Hstop].
    destruct (ok c) eqn:Hc; [|now apply Hstop].
    destruct (greedy ok k (pred lo) (option_map pred hi) (c :: bef) s) eqn:E;
      [|now apply Hstop].
    injection H as ->. apply IH in E as (w & aft' & Hk & -> & Hw & Hlo & Hhi).
    exists (c :: w), aft'. cbn [rev]. rewrite <- app_assoc. cbn [app List.length].
    repeat split; [exact Hk|now constructor|lia|].
    destruct hi as [[|h]|]; cbn [option_map pred hi_open] in *;
      [discriminate|lia|exact I].
Qed.

(** A successful match runs the rest of the pattern after a text of the
    pattern. *)
Lemma exec_span {R : Type} (ic : bool) (r : regex) :
  forall (k : cursor -> option R) (cur : cursor) (m : R),
    exec ic r k cur = Some m ->
    exists cur' w,
      k cur' = Some m /\ lang ic r w
      /\ before cur' = rev w ++ before cur /\ after cur = w ++ after cur'.
Proof.
  assert (Hsame : forall (k : cursor -> option R) cur m,
             k cur = Some m ->
             exists cur' w,
               k cur' = Some m /\ w = []
               /\ before cur' = rev w ++ before cur /\ after cur = w ++ after cur').
  { intros k cur m H. now exists cur, []. }
  induction r as [|a|r1 IH1 r2 IH2|r1 IH1 r2 IH2|a lo hi|g r1 IH1| | |];
    intros k cur m H; cbn [exec lang] in *.
  - now apply Hsame.
  - destruct (after cur) as [|c aft] eqn:Ea; [discriminate|].
    destruct (atom_ok ic a c) eqn:Hc; [|discriminate].
    exists (Cursor (c :: before cur) aft (caps cur)), [c].
    repeat split; [exact H|now exists c].
  - apply IH1 in H as (c1 & w1 & H & L1 & B1 & A1).
    apply IH2 in H as (c2 & w2 & H & L2 & B2 & A2).
    exists c2, (w1 ++ w2). split; [exact H|]. split; [now exists w1, w2|].
    rewrite B2, B1, A1, A2, rev_app_distr, <- !app_assoc. now split.
  - destruct (exec ic r1 k cur) as [m1|] eqn:E1.
    + injection H as ->. apply IH1 in E1 as (c1 & w & H & L & B & A).
      exists c1, w. repeat split; auto.
    + apply IH2 in H as (c2 & w & H & L & B & A).
      exists c2, w. repeat split; auto.
  - apply greedy_span in H as (w & aft' & H & A & Hw & Hlo & Hhi).
    exists (Cursor (rev w ++ before cur) aft' (caps cur)), w.
    repeat split; auto.
  - apply IH1 in H as (c1 & w & H & L & B & A).
    exists (Cursor (before c1) (after c1) (set_cap g (span cur c1) (caps c1))), w.
    repeat split; auto.
  - destruct (before cur) eqn:Eb; [|discriminate].
    exists cur, []. rewrite Eb. now repeat split.
  - destruct (after cur) as [|c [|c' aft]] eqn:Ea; [| |discriminate].
    + exists cur, []. rewrite Ea. now repeat split.
    + destruct (c =? ch_nl); [|discriminate].
      exists cur, []. rewrite Ea. now repeat split.
  - destruct (xorb _ _); [now apply Hsame|discriminate].
Qed.

Lemma span_of_text (cur c1 : cursor) (w : str) :
  before c1 = rev w ++ before cur -> span cur c1 = w.
Proof.
  intros B. unfold span. rewrite B, length_app, length_rev.
  replace (List.length w + List.length (before cur) - List.length (before cur))%nat
    with (List.length (rev w) + 0)%nat by (rewrite length_rev; lia).
  now rewrite firstn_app_2, firstn_O, app_nil_r, rev_involutive.
Qed.

(** The text of a group is a text of the pattern inside the group. *)
Lemma exec_group_text {R : Type} (ic : bool) (g : nat) (r1 : regex)
  (k : cursor -> option R) (cur : cursor) (m : R) :
  exec ic (Grp g r1) k cur = Some m ->
  exists c1 w,
    k (Cursor (before c1) (after c1) (set_cap g w (caps c1))) = Some m
    /\ lang ic r1 w.
Proof.
  cbn [exec]. intros H. apply exec_span in H as (c1 & w & H & L & B & _).
  rewrite (span_of_text cur c1 w B) in H. now exists c1, w.
Qed.


Lemma group_at_end (ic : bool) (g : nat) (r1 : regex)
  (c0 cur : cursor) (m : rmatch) :
  exec ic (Grp g r1) (fun c1 => Some (RMatch c0 c1)) cur = Some m ->
  exists w, group_text g m = w /\ lang ic r1 w.
Proof.
  intros H. apply exec_group_text in H as (c1 & w & H & L). injection H as <-.
  exists w. split; [|exact L]. unfold group_text, group. cbn [m_end caps].
  now rewrite get_set_cap_same.
Qed.






(** *** The shape of the version and of the dates *)





Lemma before_last_of_in {A : Type} (l : list A) (x : A) :
  before_last_of l = Some x -> In x l.
Proof.
  unfold before_last_of. destruct (rev l) as [|y [|z t]] eqn:E; try discriminate.
  intros H. injection H as <-. apply in_rev. rewrite E. right. now left.
Qed.






(** *** The publication date of a link *)

Ltac Zify.zify_post_hook ::= Z.to_euclidean_division_equations.




















(** *** The links of the list page *)

Lemma nts_loop_flat (md : date) (anchors : list anchor) :
  forall nts,
    nts_loop md anchors nts
    = nts ++ flat_map (fun a => match link_of_anchor md a with
                                | Some nt => [nt]
                                | None => []
                                end) anchors.
Proof.
  induction anchors as [|a l IH]; intros nts; cbn [nts_loop flat_map].
  - now rewrite app_nil_r.
  - rewrite IH. destruct (link_of_anchor md a); [|reflexivity].
    now rewrite <- app_assoc.
Qed.

Lemma str_eqb_eq (a b : str) : str_eqb a b = true <-> a = b.
Proof.
  unfold str_eqb. destruct (list_eq_dec N.eq_dec a b); split; congruence.
Qed.

Lemma str_in_In (s : str) (seen : list str) : str_in s seen = true <-> In s seen.
Proof.
  unfold str_in. rewrite existsb_exists. split.
  - intros (x & Hx & E). destruct (list_eq_dec N.eq_dec x s); [now subst|discriminate].
  - intros H. exists s. split; [exact H|].
    destruct (list_eq_dec N.eq_dec s s); congruence.
Qed.

(** A link that is kept is the first of the list with its URL. *)
Lemma unique_loop_first (nts : list NTLink) :
  forall seen unique x,
    In x (unique_loop nts seen unique) ->
    In x unique
    \/ (~ In (href_pdf x) seen
        /\ exists l1 l2,
             nts = l1 ++ x :: l2
             /\ forall y, In y l1 -> href_pdf y <> href_pdf x).
Proof.
  induction nts as [|nt l IH]; intros seen unique x H; cbn [unique_loop] in H.
  - now left.
  - destruct (str_in (href_pdf nt) seen) eqn:S.
    + apply IH in H as [H|(Hs & l1 & l2 & -> & Hf)]; [now left|right].
      split; [exact Hs|]. exists (nt :: l1), l2. split; [reflexivity|].
      intros y [<-|Hy]; [|now apply Hf].
      apply str_in_In in S. congruence.
    + apply IH in H as [H|(Hs & l1 & l2 & -> & Hf)].
      * apply in_app_or in H as [H|[<-|[]]]; [now left|right].
        split; [|exists [], l; split; [reflexivity|intros y []]].
        intros C. apply str_in_In in C. congruence.
      * right. split; [intros C; apply Hs; now right|].
        exists (nt :: l1), l2. split; [reflexivity|].
        intros y [<-|Hy]; [|now apply Hf].
        intros C. apply Hs. now left.
Qed.

(** No URL is kept twice. *)
Lemma unique_loop_nodup (nts : list NTLink) :
  forall seen unique,
    NoDup (map href_pdf unique) ->
    (forall u, In u unique -> In (href_pdf u) seen) ->
    NoDup (map href_pdf (unique_loop nts seen unique)).
Proof.
  induction nts as [|nt l IH]; intros seen unique Hn Hs; cbn [unique_loop].
  - exact Hn.
  - destruct (str_in (href_pdf nt) seen) eqn:S; [now apply IH|].
    apply IH.
    + rewrite map_app. cbn [map].
      apply NoDup_app; [exact Hn|repeat constructor; intros []|].
      intros h Hh [<-|[]]. apply in_map_iff in Hh. destruct Hh as (u & E & Hu).
      apply Hs in Hu. rewrite E in Hu. apply str_in_In in Hu. congruence.
    + intros u Hu. apply in_app_or in Hu as [Hu|[<-|[]]];
        [right; now apply Hs|now left].
Qed.

(** No URL is lost. *)
Lemma unique_loop_covers (nts : list NTLink) :
  forall seen unique,
    (forall h, In h seen -> In h (map href_pdf unique)) ->
    (forall u, In u unique -> In u (unique_loop nts seen unique))
    /\ forall x, In x nts ->
                 In (href_pdf x) (map href_pdf (unique_loop nts seen unique)).
Proof.
  induction nts as [|nt l IH]; intros seen unique Hs; cbn [unique_loop].
  - split; [auto|intros x []].
  - destruct (str_in (href_pdf nt) seen) eqn:S.
    + destruct (IH seen unique Hs) as [I1 I2]. split; [exact I1|].
      intros x [<-|Hx]; [|now apply I2].
      apply str_in_In, Hs, in_map_iff in S. destruct S as (u & E & Hu).
      apply in_map_iff. exists u. split; [exact E|now apply I1].
    + destruct (IH (href_pdf nt :: seen) (unique ++ [nt])) as [I1 I2].
      { intros h [<-|Hh]; rewrite map_app; apply in_or_app;
          [right; now left|left; now apply Hs]. }
      split.
      * intros u Hu. apply I1, in_or_app. now left.
      * intros x [<-|Hx]; [|now apply I2].
        apply in_map, I1, in_or_app. right. now left.
Qed.

Lemma sub_non_alnum (s : str) :
  re_sub no_flag NON_ALNUM_RE [] s = filter is_ascii_alnum s.
Proof.
  unfold NON_ALNUM_RE.
  rewrite (re_sub_squeeze _ _ _ _ _
             (class_run_match (fun c => negb (is_ascii_alnum c)))),
    squeeze_drop.
  apply filter_ext. intros c. apply negb_involutive.
Qed.

Lemma forallb_firstn {A : Type} (p : A -> bool) (n : nat) (l : list A) :
  forallb p l = true -> forallb p (firstn n l) = true.
Proof.
  rewrite !forallb_forall. intros H x Hx. apply H.
  rewrite <- (firstn_skipn n l). apply in_or_app. now left.
Qed.

Lemma forallb_filter_same {A : Type} (p : A -> bool) (l : list A) :
  forallb p (filter p l) = true.
Proof. apply forallb_forall. intros x Hx. now apply filter_In in Hx. Qed.

(** The slug names a file: it is not empty, has at most 32 characters,
    all of them ASCII letters or digits. *)
Lemma slug_of_safe (href_pdf titulo : str) :
  slug_of href_pdf titulo <> []
  /\ (List.length (slug_of href_pdf titulo) <= 32)%nat
  /\ forallb is_ascii_alnum (slug_of href_pdf titulo) = true.
Proof.
  unfold slug_of. rewrite !sub_non_alnum.
  set (s1 := firstn 32 (filter is_ascii_alnum
                          (last (str_split (py "conteudo=") href_pdf) []))).
  set (s2 := firstn 32 (filter is_ascii_alnum titulo)).
  assert (H1 : (List.length s1 <= 32)%nat /\ forallb is_ascii_alnum s1 = true).
  { split; [apply firstn_le_length|].
    apply forallb_firstn, forallb_filter_same. }
  assert (H2 : (List.length s2 <= 32)%nat /\ forallb is_ascii_alnum s2 = true).
  { split; [apply firstn_le_length|].
    apply forallb_firstn, forallb_filter_same. }
  cbv zeta. destruct s1 as [|c s1]; cbn [truthy negb].
  - destruct s2 as [|c s2]; cbn [truthy].
    + conjs; [discriminate|vm_compute; lia|reflexivity].
    + split; [discriminate|exact H2].
  - split; [discriminate|exact H1].
Qed.

Lemma lower_app (a b : str) : lower (a ++ b) = lower a ++ lower b.
Proof. apply map_app. Qed.

(** The URL of a link is absolute and has no whitespace. *)
Lemma absolute_href_ok (href : str) :
  forallb nonspace href = true ->
  starts_with (py "http") (lower (absolute_href href)) = true
  /\ forallb nonspace (absolute_href href) = true.
Proof.
  intros H. unfold absolute_href.
  destruct (starts_with (py "/") href) eqn:S1.
  - split.
    + rewrite lower_app. apply starts_with_app.
      exists (py "s://www.nfe.fazenda.gov.br" ++ lower href). reflexivity.
    + rewrite forallb_app, H. reflexivity.
  - destruct (starts_with (py "http") (lower href)) eqn:S2; [now split|].
    split.
    + rewrite lower_app. apply starts_with_app.
      exists (py "s://www.nfe.fazenda.gov.br" ++ lower (py "/portal/" ++ href)).
      reflexivity.
    + rewrite !forallb_app, H. reflexivity.
Qed.


(** What a link is made of. *)
Lemma link_of_anchor_some (md : date) (a : anchor) (nt : NTLink) :
  link_of_anchor md a = Some nt ->
  exists raw d,
    a_href a = Some raw /\ filter nonspace raw <> []
    /\ nt = mkNTLink (a_text a) (Some d)
                     (absolute_href (filter nonspace raw))
                     (slug_of (absolute_href (filter nonspace raw)) (a_text a))
    /\ date_ge d md = true
    /\ (_parse_publish_date
          (match a_parent_text a with
           | Some t => join (py " ") (split_ws t)
           | None => []
           end) = Some d
        \/ _parse_publish_date (a_text a) = Some d).
Proof.
  unfold link_of_anchor. destruct (a_href a) as [raw|]; [|discriminate].
  rewrite normalize_href_filter. cbn [or_empty].
  destruct (filter nonspace raw) as [|c h] eqn:F; [discriminate|].
  cbn [truthy negb]. cbv zeta.
  set (parent := match a_parent_text a with
                 | Some t => join (py " ") (split_ws t)
                 | None => []
                 end).
  destruct (_parse_publish_date parent) as [d|] eqn:P1.
  - destruct (date_ge d md) eqn:G; [|discriminate]. intros H. injection H as <-.
    exists raw, d. rewrite F. conjs; try reflexivity; [discriminate|exact G|now left].
  - destruct (_parse_publish_date (a_text a)) as [d|] eqn:P2; [|discriminate].
    destruct (date_ge d md) eqn:G; [|discriminate]. intros H. injection H as <-.
    exists raw, d. rewrite F. conjs; try reflexivity; [discriminate|exact G|now right].
Qed.

(** Every link returned was made from an [a] element of the page. *)
Lemma discover_in (anchors : list anchor) (md : date) (nt : NTLink) :
  In nt (discover_nts_by_publish_date anchors md) ->
  exists a, In a anchors /\ link_of_anchor md a = Some nt.
Proof.
  unfold discover_nts_by_publish_date. rewrite nts_loop_flat. cbn [app].
  intros H. apply unique_loop_first in H as [[]|(_ & l1 & l2 & E & _)].
  assert (Hin : In nt (flat_map (fun a => match link_of_anchor md a with
                                          | Some nt => [nt]
                                          | None => []
                                          end) anchors)).
  { rewrite E. apply in_or_app. right. now left. }
  apply in_flat_map in Hin. destruct Hin as (a & Ha & Hn). exists a.
  split; [exact Ha|]. destruct (link_of_anchor md a); [|destruct Hn].
  destruct Hn as [->|[]]. reflexivity.
Qed.



(** X18. The URL of every link returned is absolute, it starts with
    "http" in any case, and has no whitespace: it is the [href] of an [a]
    element of the page without its whitespace characters, as it is or
    after the address of the portal. *)
Theorem X18_link_urls (anchors : list anchor) (min_date : date) (nt : NTLink) :
  In nt (discover_nts_by_publish_date anchors min_date) ->
  starts_with (py "http") (lower (href_pdf nt)) = true
  /\ forallb (fun c => negb (isspace c)) (href_pdf nt) = true
  /\ exists a raw prefix,
       In a anchors /\ a_href a = Some raw
       /\ In prefix [[]; PORTAL_HOST; PORTAL_HOST ++ py "/portal/"]
       /\ href_pdf nt = prefix ++ filter (fun c => negb (isspace c)) raw.
Proof.
  intros H. apply discover_in in H as (a & Ha & H).
  apply link_of_anchor_some in H as (raw & d & Hr & _ & -> & _ & _).
  cbn [href_pdf].
  destruct (absolute_href_ok (filter nonspace raw) (forallb_filter_same _ raw))
    as [H1 H2].
  conjs; [exact H1|exact H2|].
  exists a, raw. unfold absolute_href.
  destruct (starts_with (py "/") (filter nonspace raw)).
  - exists PORTAL_HOST. conjs; [exact Ha|exact Hr|right; now left|reflexivity].
  - destruct (starts_with (py "http") (lower (filter nonspace raw))).
    + exists []. conjs; [exact Ha|exact Hr|now left|reflexivity].
    + exists (PORTAL_HOST ++ py "/portal/").
      conjs; [exact Ha|exact Hr|right; right; now left|].
      now rewrite <- app_assoc.
Qed.

Lemma X18_link_urls_witness :
  In ex_link
     (discover_nts_by_publish_date [ex_anchor; ex_anchor_again; ex_anchor_old]
                                   MIN_DATE)
  /\ starts_with (py "http") (lower (href_pdf ex_link)) = true
  /\ forallb (fun c => negb (isspace c)) (href_pdf ex_link) = true
  /\ exists a raw prefix,
       In a [ex_anchor; ex_anchor_again; ex_anchor_old]
       /\ a_href a = Some raw
       /\ In prefix [[]; PORTAL_HOST; PORTAL_HOST ++ py "/portal/"]
       /\ href_pdf ex_link = prefix ++ filter (fun c => negb (isspace c)) raw.
Proof.
  split; [vm_compute; now left|].
  apply (X18_link_urls [ex_anchor; ex_anchor_again; ex_anchor_old] MIN_DATE
                       ex_link).
  vm_compute. now left.
Defined.

(** X19. The slug of every link returned names a file: it is not empty,
    has at most 32 characters, and all of them are ASCII letters or
    digits; no separator of a path can be in it. *)
Theorem X19_slug_names_file (anchors : list anchor) (min_date : date)
  (nt : NTLink) :
  In nt (discover_nts_by_publish_date anchors min_date) ->
  slug nt <> [] /\ (List.length (slug nt) <= 32)%nat
  /\ forallb is_ascii_alnum (slug nt) = true.
Proof.
  intros H. apply discover_in in H as (a & Ha & H).
  apply link_of_anchor_some in H as (raw & d & _ & _ & -> & _ & _).
  cbn [slug]. apply slug_of_safe.
Qed.

Lemma X19_slug_names_file_witness :
  In ex_link
     (discover_nts_by_publish_date [ex_anchor; ex_anchor_again; ex_anchor_old]
                                   MIN_DATE)
  /\ slug ex_link <> [] /\ (List.length (slug ex_link) <= 32)%nat
  /\ forallb is_ascii_alnum (slug ex_link) = true.
Proof.
  split; [vm_compute; now left|].
  apply (X19_slug_names_file [ex_anchor; ex_anchor_again; ex_anchor_old]
                             MIN_DATE ex_link).
  vm_compute. now left.
Defined.

(** X20. The links returned have different URLs, every URL of a link made
    from the page is the URL of a link returned, and the link returned for
    a URL is the first made with it, in the order of the page: of two
    elements with the same URL the title and the date of the first are
    kept. *)
Theorem X20_links_unique (anchors : list anchor) (min_date : date) :
  let made := flat_map (fun a => match link_of_anchor min_date a with
                                 | Some nt => [nt]
                                 | None => []
                                 end) anchors in
  let nts := discover_nts_by_publish_date anchors min_date in
  NoDup (map href_pdf nts)
  /\ (forall x, In x made -> In (href_pdf x) (map href_pdf nts))
  /\ Forall (fun nt =>
               exists l1 l2,
                 made = l1 ++ nt :: l2
                 /\ Forall (fun y => href_pdf y <> href_pdf nt) l1) nts.
Proof.
  cbv zeta. unfold discover_nts_by_publish_date. rewrite nts_loop_flat.
  cbn [app]. conjs.
  - apply unique_loop_nodup; [constructor|intros u []].
  - apply unique_loop_covers. intros h [].
  - apply Forall_forall. intros nt H.
    apply unique_loop_first in H as [[]|(_ & l1 & l2 & E & Hf)].
    exists l1, l2. split; [exact E|]. now apply Forall_forall.
Qed.

(** *** The files of the downloads *)

Lemma str_eqb_refl (a : str) : str_eqb a a = true.
Proof. now apply str_eqb_eq. Qed.

Lemma read_write_same (name : str) (b : bytes) (fs : files) :
  read_file name (write_file name b fs) = Some b.
Proof. unfold write_file. cbn [read_file]. now rewrite str_eqb_refl. Qed.

Lemma read_write_other (name n : str) (b : bytes) (fs : files) :
  n <> name -> read_file n (write_file name b fs) = read_file n fs.
Proof.
  intros H. unfold write_file. cbn [read_file].
  destruct (str_eqb name n) eqn:E; [|reflexivity].
  apply str_eqb_eq in E. congruence.
Qed.

Lemma html_is_not_pdf (a b : str) : a ++ py ".html" <> b ++ py ".pdf".
Proof.
  intros E. apply (f_equal (fun l => last l 0)) in E.
  change (py ".html") with ([46; 104; 116; 109] ++ [108]) in E.
  change (py ".pdf") with ([46; 112; 100] ++ [102]) in E.
  rewrite !app_assoc, !last_last in E. discriminate.
Qed.

Lemma ensure_pdf_downloaded_cases (nt : NTLink) (resp : option response)
  (fs : files) :
  ensure_pdf_downloaded nt resp fs
  = match resp with
    | Some r =>
      if taken_for_pdf r
      then (Some (slug nt ++ py ".pdf"),
            write_file (slug nt ++ py ".pdf") (content r) fs)
      else (None, write_file (slug nt ++ py ".html") (text_encoded r) fs)
    | None => (None, fs)
    end.
Proof. reflexivity. Qed.

(** X21. When [ensure_pdf_downloaded] returns a file, the request gave a
    response whose content type holds "pdf", in any case, or whose body
    starts with %PDF and holds %%EOF; the file is named by the slug, holds
    the body of the response, and no other file is changed.  When it
    returns [None], no file with a name in .pdf is written or changed. *)
Theorem X21_download_files (nt : NTLink) (resp : option response) (fs : files) :
  match ensure_pdf_downloaded nt resp fs with
  | (Some name, fs') =>
    exists r,
      resp = Some r /\ name = slug nt ++ py ".pdf"
      /\ (contains (py "pdf") (lower (or_empty (content_type r))) = true
          \/ (starts_with (py "%PDF") (content r) = true
              /\ contains (py "%%EOF") (content r) = true))
      /\ read_file name fs' = Some (content r)
      /\ forall n, n <> name -> read_file n fs' = read_file n fs
  | (None, fs') =>
    forall n, read_file (n ++ py ".pdf") fs' = read_file (n ++ py ".pdf") fs
  end.
Proof.
  rewrite ensure_pdf_downloaded_cases. destruct resp as [r|]; [|reflexivity].
  destruct (taken_for_pdf r) eqn:T.
  - exists r. conjs; try reflexivity.
    + unfold taken_for_pdf, is_probably_pdf_bytes in T.
      rewrite rfind_contains in T.
      apply orb_prop in T as [T|T]; [now left|right].
      now apply andb_prop in T.
    + apply read_write_same.
    + intros n Hn. now apply read_write_other.
  - intros n. apply read_write_other. intros E. symmetry in E.
    now apply html_is_not_pdf in E.
Qed.

(** *** The sheet of a run *)

(** Every column of the sheet finds its key in the dict of a row. *)
Lemma frame_cells (r : NTRow) :
  map (fun c => match dict_get c (sheet_dict r) with
                | Some v => v
                | None => None
                end) COLUMNS
  = sheet_cells r.
Proof. destruct r. vm_compute. reflexivity. Qed.

Lemma run_loop_rows (download : str -> option response)
  (open_pdf : bytes -> pdf_file) (nts : list NTLink) :
  forall fs all_rows total_rules,
    fst (run_loop download open_pdf nts fs all_rows total_rules)
    = (all_rows ++ map sheet_dict (flat_map (link_rows download open_pdf) nts),
       (total_rules
        + List.length (filter (fun r => filled (descricao r))
                              (flat_map (link_rows download open_pdf) nts)))%nat).
Proof.
  induction nts as [|nt l IH]; intros fs all_rows total_rules.
  - cbn [run_loop flat_map map filter List.length fst].
    now rewrite app_nil_r, Nat.add_0_r.
  - cbn [run_loop flat_map]. rewrite ensure_pdf_downloaded_cases.
    unfold link_rows at 1 3.
    destruct (download (href_pdf nt)) as [r|].
    + destruct (taken_for_pdf r).
      * unfold pdf_at. rewrite read_write_same, IH.
        rewrite map_app, filter_app, length_app, app_assoc, Nat.add_assoc.
        reflexivity.
      * rewrite IH. cbn [map app filter List.length descricao metadata_row
                           filled or_empty truthy].
        now rewrite <- app_assoc.
    + rewrite IH. cbn [map app filter List.length descricao metadata_row
                         filled or_empty truthy].
      now rewrite <- app_assoc.
Qed.

Lemma run_sheet (anchors : list anchor) (download : str -> option response)
  (open_pdf : bytes -> pdf_file) (fs : files) :
  let rows := flat_map (link_rows download open_pdf)
                       (discover_nts_by_publish_date anchors MIN_DATE) in
  sheet_header (fst (fst (run anchors download open_pdf fs))) = COLUMNS
  /\ sheet_rows (fst (fst (run anchors download open_pdf fs)))
     = map sheet_cells rows
  /\ snd (fst (run anchors download open_pdf fs))
     = List.length (filter (fun r => filled (descricao r)) rows).
Proof.
  cbv zeta. unfold run.
  destruct (discover_nts_by_publish_date anchors MIN_DATE) as [|nt l] eqn:E.
  - cbn [truthy_list negb]. conjs; reflexivity.
  - cbn [truthy_list negb].
    pose proof (run_loop_rows download open_pdf (nt :: l) fs [] 0) as H.
    destruct (run_loop download open_pdf (nt :: l) fs [] 0) as [[rows n] fs'].
    cbn [fst] in H. injection H as -> ->. cbn [fst snd app Nat.add].
    unfold write_rules_to_xlsx, data_frame. cbn [sheet_header sheet_rows].
    conjs; [reflexivity| |reflexivity].
    rewrite map_map. apply map_ext. intros r. apply frame_cells.
Qed.


Lemma filter_all {A : Type} (p : A -> bool) (l : list A) :
  Forall (fun x => p x = true) l -> filter p l = l.
Proof.
  induction 1 as [|x l Hx _ IH]; [reflexivity|]. cbn [filter].
  now rewrite Hx, IH.
Qed.

(** The rows of a document with a description are its rows with a rule,
    one for each record of its tables. *)
Lemma extract_rows_rules (f : pdf_file) (title : str) (pub : option str) :
  Forall (fun r => filled (descricao r) = has_rule_cell (sheet_cells r))
         (extract_rules_from_pdf f title pub)
  /\ List.length (filter (fun r => filled (descricao r))
                         (extract_rules_from_pdf f title pub))
     = List.length (match _parse_rv_tables f with
                    | Ok l => l
                    | Raise _ => []
                    end).
Proof.
  assert (Hmin : forall out, _parse_rv_tables f = Ok out -> Forall min_content out).
  { intros out H. apply (parse_rv_tables_all min_content) with (f := f); [|exact H].
    intros header r d. apply kept_row_content. }
  unfold extract_rules_from_pdf.
  destruct (_extract_versions_block (_pdf_text f)) as [[v h] p].
  rewrite parse_rv_text_empty.
  destruct (_parse_rv_tables f) as [[|d l]|e]; cbn [truthy_list negb].
  - split; [repeat constructor|reflexivity].
  - specialize (Hmin (d :: l) eq_refl).
    assert (Hf : Forall (fun r => filled (descricao r) = true)
                   (map (fun rv =>
                           mkNTRow title v pub h p None
                                   (Some (clean_space (rv_campo rv)))
                                   (Some (clean_space (rv_regra rv)))
                                   (Some (clean_space (rv_aplic rv)))
                                   (Some (clean_space (rv_msg rv)))
                                   (Some (clean_space (rv_descricao rv))))
                        (d :: l))).
    { apply Forall_map. apply Forall_impl with (2 := Hmin).
      intros x (_ & Hx & _). cbn [descricao filled or_empty].
      destruct (clean_space (rv_descricao x)); [simpl in Hx; lia|reflexivity]. }
    split.
    + apply Forall_map. apply Forall_impl with (2 := Hmin).
      intros x (_ & Hx & _). cbn [descricao filled or_empty].
      destruct (clean_space (rv_descricao x)); [simpl in Hx; lia|reflexivity].
    + rewrite (filter_all _ _ Hf). now rewrite length_map.
  - split; [repeat constructor|reflexivity].
Qed.


Lemma link_rows_rules (download : str -> option response)
  (open_pdf : bytes -> pdf_file) (nt : NTLink) :
  Forall (fun r => filled (descricao r) = has_rule_cell (sheet_cells r))
         (link_rows download open_pdf nt)
  /\ List.length (filter (fun r => filled (descricao r))
                         (link_rows download open_pdf nt))
     = List.length (link_records download open_pdf nt).
Proof.
  unfold link_rows, link_records. destruct (download (href_pdf nt)) as [r|].
  - destruct (taken_for_pdf r); [apply extract_rows_rules|].
    split; [repeat constructor|reflexivity].
  - split; [repeat constructor|reflexivity].
Qed.

Lemma all_rows_rules (download : str -> option response)
  (open_pdf : bytes -> pdf_file) (nts : list NTLink) :
  Forall (fun r => filled (descricao r) = has_rule_cell (sheet_cells r))
         (flat_map (link_rows download open_pdf) nts)
  /\ List.length (filter (fun r => filled (descricao r))
                         (flat_map (link_rows download open_pdf) nts))
     = List.length (flat_map (link_records download open_pdf) nts).
Proof.
  induction nts as [|nt l [IH1 IH2]]; [split; [constructor|reflexivity]|].
  cbn [flat_map]. destruct (link_rows_rules download open_pdf nt) as [H1 H2].
  split; [apply Forall_app; now split|].
  now rewrite filter_app, !length_app, H2, IH2.
Qed.

Lemma filter_map_length {A B : Type} (p : B -> bool) (q : A -> bool)
  (f : A -> B) (l : list A) :
  Forall (fun x => q x = p (f x)) l ->
  List.length (filter q l) = List.length (filter p (map f l)).
Proof.
  induction 1 as [|x l Hx _ IH]; [reflexivity|]. cbn [map filter].
  rewrite Hx. destruct (p (f x)); cbn [List.length]; now rewrite IH.
Qed.




(** X24. The number [run] logs as the rules collected is the number of
    lines of the sheet with a rule, and it is the number of records the
    table parser found in the documents downloaded: a line with title and
    date alone is not counted, and every line with a rule is. *)
Theorem X24_total_rules (anchors : list anchor)
  (download : str -> option response) (open_pdf : bytes -> pdf_file)
  (fs : files) :
  let sh := fst (fst (run anchors download open_pdf fs)) in
  let total_rules := snd (fst (run anchors download open_pdf fs)) in
  total_rules = List.length (filter has_rule_cell (sheet_rows sh))
  /\ total_rules
     = List.length (flat_map (link_records download open_pdf)
                             (discover_nts_by_publish_date anchors MIN_DATE)).
Proof.
  cbv zeta. destruct (run_sheet anchors download open_pdf fs) as (_ & -> & ->).
  destruct (all_rows_rules download open_pdf
              (discover_nts_by_publish_date anchors MIN_DATE)) as [H1 H2].
  split; [|exact H2]. now apply filter_map_length.
Qed.
